(** * Oceangram Tray: connectivity and notification core

  A shallow embedding of the stateful singletons of the tray client and
  the properties of their bookkeeping:

  - [Tracker]  : [MessageTracker] of tracker.ts (unread ledger, watermarks);
  - [Daemon]   : [DaemonClient] of daemon.js (connected flag, reconnect backoff);
  - [Bubbles]  : [BubbleManager] of bubbles.js (the pool of bubble windows);
  - [Whitelist]: [WhitelistManager] of whitelist.js (allow-list and settings);
  - [Main]     : the wiring of main.ts (tracker events into the pool, the tray).

  Every method is a function from the object's state to its new state
  together with the list of effects it performs (events emitted, files
  written, timers armed), in program order. *)

From stdpp Require Import base list strings gmap fin_maps pretty.
From Stdlib Require Import ZArith Lia.

Local Open Scope string_scope.
Local Open Scope list_scope.
Local Open Scope Z_scope.

(** ** JavaScript values used as identifiers *)

(** [number | string], possibly [undefined] (an optional property). *)
Inductive JsId :=
| JNum (n : Z)
| JStr (s : string).

(** Truthiness of [v] in [v || w] and [v ? a : b]. *)
Definition truthy (v : option JsId) : bool :=
  match v with
  | Some (JNum n) => negb (n =? 0)
  | Some (JStr s) => negb (bool_decide (s = ""))
  | None => false
  end.

(** [a || b] *)
Definition js_or (a b : option JsId) : option JsId :=
  if truthy a then a else b.

(** [String(v)] *)
Definition String_ (v : option JsId) : string :=
  match v with
  | Some (JNum n) => pretty n
  | Some (JStr s) => s
  | None => "undefined"
  end.

(** [a || b] on optional strings. *)
Definition str_or (a : option string) (b : string) : string :=
  match a with
  | Some s => if bool_decide (s = "") then b else s
  | None => b
  end.

(** ** types.ts *)

Module TelegramMessage.
Record t := mk {
  id : Z;
  text : string;
  fromId : option JsId;
  senderId : option JsId;
  dialogId : option string;
  chatId : option string;
}.
End TelegramMessage.

Module TelegramDialog.
Record t := mk {
  id : JsId;
  userId : option JsId;
}.
End TelegramDialog.

Module WhitelistEntry.
Record t := mk {
  userId : string;
  username : string;
  displayName : string;
}.
End WhitelistEntry.

Module UnreadEntry.
Record t := mk {
  dialogId : option string;
  messages : list TelegramMessage.t;
  count : nat;
}.
End UnreadEntry.

(** [event.message || event]: the wrapped message when the frame carries
  one, else the frame's own fields read as a message. *)
Module DaemonEvent.
Record t := mk {
  message : option TelegramMessage.t;
  self : TelegramMessage.t;
}.
End DaemonEvent.

(** ** whitelist.js (the part the tracker reads) *)

Definition isWhitelisted (whitelist : list WhitelistEntry.t) (userId : string) : bool :=
  existsb (fun u => bool_decide (WhitelistEntry.userId u = userId)) whitelist.

(** ** tracker.ts *)

Module Tracker.

Import TelegramMessage.

Inductive Effect :=
| EmitNewMessage (userId dialogId : string) (message : TelegramMessage.t)
| EmitUserUnreadsChanged (userId : string) (count : nat)
| EmitMessagesRead (userId : string)
| WriteLastSeen (content : gmap string Z)
| DaemonMarkRead (messageId : Z).

Record MessageTracker := mkTracker {
  unreads : gmap string UnreadEntry.t;
  lastSeenIds : gmap string Z;
}.

(** A method: new state and the effects performed, in order. *)
Definition Action := MessageTracker -> MessageTracker * list Effect.

Definition andThen (a b : Action) : Action :=
  fun t => let '(t1, e1) := a t in
           let '(t2, e2) := b t1 in (t2, e1 ++ e2).

Definition skip : Action := fun t => (t, []).

Fixpoint forEach {A} (f : A -> Action) (l : list A) : Action :=
  match l with
  | [] => skip
  | x :: l' => andThen (f x) (forEach f l')
  end.

(** The constructor: empty ledger, watermarks as read from last-seen.json. *)
Definition init (loaded : gmap string Z) : MessageTracker :=
  {| unreads := ∅; lastSeenIds := loaded |}.

(** [entry.messages.some((m) => m.id === msg.id)] *)
Definition hasId (messages : list TelegramMessage.t) (msg : TelegramMessage.t) : bool :=
  existsb (fun m => id m =? id msg) messages.

Definition _addUnread (userId dialogId : string) (msg : TelegramMessage.t) : Action :=
  fun t =>
    let rows :=
      match unreads t !! userId with
      | Some _ => unreads t
      | None => <[userId := UnreadEntry.mk (Some dialogId) [] 0]> (unreads t)
      end in
    let entry := default (UnreadEntry.mk (Some dialogId) [] 0) (rows !! userId) in
    if hasId (UnreadEntry.messages entry) msg
    then ({| unreads := rows; lastSeenIds := lastSeenIds t |}, [])
    else
      let messages' := UnreadEntry.messages entry ++ [msg] in
      let entry' := UnreadEntry.mk (Some dialogId) messages' (length messages') in
      ({| unreads := <[userId := entry']> rows; lastSeenIds := lastSeenIds t |},
       [EmitNewMessage userId dialogId msg;
        EmitUserUnreadsChanged userId (UnreadEntry.count entry')]).

Definition _handleNewMessage (whitelist : list WhitelistEntry.t)
    (event : DaemonEvent.t) : Action :=
  let msg := default (DaemonEvent.self event) (DaemonEvent.message event) in
  let sender := js_or (js_or (fromId msg) (senderId msg)) (Some (JStr "")) in
  let from := String_ sender in
  let dialog := str_or (dialogId msg) (str_or (chatId msg) "") in
  if bool_decide (from = "") || negb (isWhitelisted whitelist from)
  then skip
  else _addUnread from dialog msg.

(** The filter of [_poll]: [lastSeen ? messages.filter(...) : []]. *)
Definition newMsgs (lastSeen : option Z) (userId : string)
    (messages : list TelegramMessage.t) : list TelegramMessage.t :=
  match lastSeen with
  | Some w =>
      if w =? 0 then []
      else List.filter
             (fun m => (w <? id m)
                       && bool_decide (String_ (js_or (fromId m) (senderId m)) = userId))
             messages
  | None => []
  end.

(** One iteration of the loop of [_poll]; [fetched] is what
    [daemon.getMessages(dialogId, 10)] resolved to ([None]: not an array). *)
Definition _poll_dialog (whitelist : list WhitelistEntry.t)
    (d : TelegramDialog.t) (fetched : option (list TelegramMessage.t)) : Action :=
  fun t =>
    let userId := String_ (js_or (TelegramDialog.userId d) (Some (TelegramDialog.id d))) in
    if negb (isWhitelisted whitelist userId) then (t, [])
    else
      let dialogId := String_ (Some (TelegramDialog.id d)) in
      match fetched with
      | None | Some [] => (t, [])
      | Some messages =>
          let lastSeen := lastSeenIds t !! dialogId in
          forEach (_addUnread userId dialogId) (newMsgs lastSeen userId messages) t
      end.

(** [_poll]; [connected] is [daemon.connected], [dialogs] what
    [daemon.getDialogs()] resolved to, each dialog with its fetched messages. *)
Definition _poll (whitelist : list WhitelistEntry.t) (connected : bool)
    (dialogs : option (list (TelegramDialog.t * option (list TelegramMessage.t)))) : Action :=
  if negb connected then skip
  else match dialogs with
       | None => skip
       | Some ds => forEach (fun df => _poll_dialog whitelist (fst df) (snd df)) ds
       end.

(** [_saveLastSeen]: the write of the whole watermark map. *)
Definition _saveLastSeen : Action :=
  fun t => (t, [WriteLastSeen (lastSeenIds t)]).

Definition markRead (userId : string) : Action :=
  fun t =>
    match unreads t !! userId with
    | None => (t, [])
    | Some entry =>
        let '(t1, e1) :=
          match last (UnreadEntry.messages entry) with
          | Some latest =>
              andThen
                (fun t => ({| unreads := unreads t;
                              lastSeenIds := <[str_or (UnreadEntry.dialogId entry) "" := id latest]>
                                               (lastSeenIds t) |}, []))
                (andThen _saveLastSeen (fun t => (t, [DaemonMarkRead (id latest)]))) t
          | None => (t, [])
          end in
        ({| unreads := delete userId (unreads t1); lastSeenIds := lastSeenIds t1 |},
         e1 ++ [EmitMessagesRead userId; EmitUserUnreadsChanged userId 0])
    end.

Definition getUnreads (userId : string) (t : MessageTracker)
  : UnreadEntry.t * MessageTracker :=
  (default (UnreadEntry.mk None [] 0) (unreads t !! userId), t).

(** [stop]: the poll timer is cleared and the watermarks are written. *)
Definition stop : Action := _saveLastSeen.

(** What can happen to the tracker between two turns of the event loop.
    The whitelist is read from the store at the time of the call. *)
Inductive Op :=
| OpPush (whitelist : list WhitelistEntry.t) (event : DaemonEvent.t)
| OpPollDialog (whitelist : list WhitelistEntry.t) (d : TelegramDialog.t)
               (fetched : option (list TelegramMessage.t))
| OpMarkRead (userId : string)
| OpStop.

Definition step (op : Op) : Action :=
  match op with
  | OpPush wl ev => _handleNewMessage wl ev
  | OpPollDialog wl d fetched => _poll_dialog wl d fetched
  | OpMarkRead u => markRead u
  | OpStop => stop
  end.

Definition run (ops : list Op) : Action := forEach step ops.

(** Is a message with the id of [msg] buffered for [userId]? *)
Definition inLedger (userId : string) (msg : TelegramMessage.t) (t : MessageTracker) : bool :=
  match unreads t !! userId with
  | Some e => hasId (UnreadEntry.messages e) msg
  | None => false
  end.

(** The ledger row invariant: [count] is the buffer's length, no id is
    buffered twice, and a row never holds an empty buffer. *)
Definition row_ok (e : UnreadEntry.t) : Prop :=
  UnreadEntry.count e = length (UnreadEntry.messages e)
  ∧ NoDup (id <$> UnreadEntry.messages e)
  ∧ UnreadEntry.messages e ≠ []
  ∧ is_Some (UnreadEntry.dialogId e).

Definition ledger_ok (t : MessageTracker) : Prop :=
  ∀ u e, unreads t !! u = Some e → row_ok e.


(** What [markRead userId] writes into [lastSeenIds]: the dialog of the
    contact's row and the id of the last message of its buffer. *)
Definition markRead_target (userId : string) (t : MessageTracker) : option (string * Z) :=
  match unreads t !! userId with
  | Some entry =>
      match last (UnreadEntry.messages entry) with
      | Some latest => Some (str_or (UnreadEntry.dialogId entry) "", id latest)
      | None => None
      end
  | None => None
  end.

(** [String(m.fromId || m.senderId)], the sender the poll filter compares. *)
Definition sender (m : TelegramMessage.t) : string :=
  String_ (js_or (fromId m) (senderId m)).

End Tracker.

(** ** daemon.js *)

Module Daemon.

(** The thin request wrappers other than [getHealth]. *)
Inductive Wrapper :=
| GetMe | GetDialogs | GetMessages | SendMessage | MarkRead | GetProfilePhoto.

Inductive Effect :=
| EmitConnectionChanged (connected : bool)
| EmitWsConnected
| EmitWsDisconnected
| EmitEvent (payload : string)
| EmitTyped (type payload : string)
| LogParseError
| LogWsError
| LogPollingOnly
| Request (w : option Wrapper)
| CloseSocket
| ClearTimeout (delay : Z)
| SetTimeout (delay : Z)
| ClearInterval (intervalMs : Z)
| SetInterval (intervalMs : Z).

(** [reconnectTimer] and [healthCheckTimer] hold the delay the pending
    timer was armed with; [ws] tells whether a socket object is held. *)
Record DaemonClient := mkDaemon {
  connected : bool;
  ws : bool;
  reconnectAttempts : nat;
  maxReconnectDelay : Z;
  reconnectTimer : option Z;
  healthCheckTimer : option Z;
}.

Definition Action := DaemonClient -> DaemonClient * list Effect.

Definition andThen (a b : Action) : Action :=
  fun c => let '(c1, e1) := a c in
           let '(c2, e2) := b c1 in (c2, e1 ++ e2).

Definition skip : Action := fun c => (c, []).

Fixpoint forEach {A} (f : A -> Action) (l : list A) : Action :=
  match l with
  | [] => skip
  | x :: l' => andThen (f x) (forEach f l')
  end.

(** The constructor. *)
Definition init : DaemonClient :=
  {| connected := false; ws := false; reconnectAttempts := 0;
     maxReconnectDelay := 30000; reconnectTimer := None; healthCheckTimer := None |}.

(** [getHealth]; [ok] tells whether the request resolved. *)
Definition getHealth (ok : bool) : Action :=
  fun c =>
    ({| connected := ok; ws := ws c; reconnectAttempts := reconnectAttempts c;
        maxReconnectDelay := maxReconnectDelay c; reconnectTimer := reconnectTimer c;
        healthCheckTimer := healthCheckTimer c |},
     [Request None; EmitConnectionChanged ok]).

(** [getMe], [getDialogs], [getMessages], [sendMessage], [markRead],
    [getProfilePhoto]: the request, and a value for the caller. *)
Definition wrapper (w : Wrapper) (ok : bool) : Action :=
  fun c => (c, [Request (Some w)]).

(** [Math.min(1000 * Math.pow(2, attempts), maxReconnectDelay)] *)
Definition backoff (attempts : nat) (maxDelay : Z) : Z :=
  Z.min (1000 * 2 ^ Z.of_nat attempts) maxDelay.

Definition _scheduleReconnect : Action :=
  fun c =>
    let cleared := match reconnectTimer c with
                   | Some d => [ClearTimeout d]
                   | None => []
                   end in
    let delay := backoff (reconnectAttempts c) (maxReconnectDelay c) in
    ({| connected := connected c; ws := ws c;
        reconnectAttempts := S (reconnectAttempts c);
        maxReconnectDelay := maxReconnectDelay c; reconnectTimer := Some delay;
        healthCheckTimer := healthCheckTimer c |},
     cleared ++ [SetTimeout delay]).

(** [connectWS]; [available] tells whether a WebSocket could be constructed. *)
Definition connectWS (available : bool) : Action :=
  fun c =>
    let closing := if ws c then [CloseSocket] else [] in
    if available
    then ({| connected := connected c; ws := true;
             reconnectAttempts := reconnectAttempts c;
             maxReconnectDelay := maxReconnectDelay c;
             reconnectTimer := reconnectTimer c;
             healthCheckTimer := healthCheckTimer c |}, closing)
    else let '(c1, e1) := _scheduleReconnect c in
         (c1, closing ++ [LogPollingOnly] ++ e1).

(** The socket's ['open'] handler. *)
Definition onOpen : Action :=
  fun c =>
    ({| connected := true; ws := ws c; reconnectAttempts := 0;
        maxReconnectDelay := maxReconnectDelay c; reconnectTimer := reconnectTimer c;
        healthCheckTimer := healthCheckTimer c |},
     [EmitConnectionChanged true; EmitWsConnected]).

(** What [JSON.parse(data.toString())] gives: an exception, [null] (whose
    [type] cannot be read), or any other value with its [type] field, if it
    has one. *)
Inductive Frame :=
| Unparsable
| Null
| Value (type : option string).

(** The ['message'] handler. The frame is emitted as ['event'] and, when
    its [type] is truthy, once more under that name, on the same emitter
    (so a frame typed 'connection-changed' reaches the listeners of
    connection-changed). Reading the type of [null], and emitting ['error'],
    which has no listener, throw into the handler's catch, which logs. *)
Definition onMessage (data : string) (parsed : Frame) : Action :=
  fun c =>
    match parsed with
    | Unparsable => (c, [LogParseError])
    | Null => (c, [EmitEvent data; LogParseError])
    | Value None => (c, [EmitEvent data])
    | Value (Some type) =>
        if bool_decide (type = "") then (c, [EmitEvent data])
        else if bool_decide (type = "error") then (c, [EmitEvent data; LogParseError])
        else (c, [EmitEvent data; EmitTyped type data])
    end.

(** The ['close'] handler. *)
Definition onClose : Action :=
  andThen
    (fun c =>
       ({| connected := false; ws := ws c; reconnectAttempts := reconnectAttempts c;
           maxReconnectDelay := maxReconnectDelay c; reconnectTimer := reconnectTimer c;
           healthCheckTimer := healthCheckTimer c |},
        [EmitConnectionChanged false; EmitWsDisconnected]))
    _scheduleReconnect.

(** The ['error'] handler. *)
Definition onError : Action := fun c => (c, [LogWsError]).

Definition stopHealthCheck : Action :=
  fun c =>
    match healthCheckTimer c with
    | Some i =>
        ({| connected := connected c; ws := ws c;
            reconnectAttempts := reconnectAttempts c;
            maxReconnectDelay := maxReconnectDelay c;
            reconnectTimer := reconnectTimer c; healthCheckTimer := None |},
         [ClearInterval i])
    | None => (c, [])
    end.

(** [startHealthCheck] up to the request it sends; the request settles
    later, as a [getHealth] of its own. *)
Definition startHealthCheck (intervalMs : Z) : Action :=
  andThen stopHealthCheck
    (fun c =>
       ({| connected := connected c; ws := ws c;
           reconnectAttempts := reconnectAttempts c;
           maxReconnectDelay := maxReconnectDelay c;
           reconnectTimer := reconnectTimer c; healthCheckTimer := Some intervalMs |},
        [SetInterval intervalMs])).

Definition stop : Action :=
  andThen stopHealthCheck
    (fun c =>
       (c, match reconnectTimer c with Some d => [ClearTimeout d] | None => [] end
           ++ if ws c then [CloseSocket] else [])).

(** What can happen to the client between two turns of the event loop. *)
Inductive Op :=
| OpGetHealth (ok : bool)
| OpWrapper (w : Wrapper) (ok : bool)
| OpConnectWS (available : bool)
| OpOpen
| OpMessage (data : string) (parsed : Frame)
| OpClose
| OpError
| OpScheduleReconnect
| OpStartHealthCheck (intervalMs : Z)
| OpStopHealthCheck
| OpStop.

Definition step (op : Op) : Action :=
  match op with
  | OpGetHealth ok => getHealth ok
  | OpWrapper w ok => wrapper w ok
  | OpConnectWS available => connectWS available
  | OpOpen => onOpen
  | OpMessage data parsed => onMessage data parsed
  | OpClose => onClose
  | OpError => onError
  | OpScheduleReconnect => _scheduleReconnect
  | OpStartHealthCheck i => startHealthCheck i
  | OpStopHealthCheck => stopHealthCheck
  | OpStop => stop
  end.

Definition run (ops : list Op) : Action := forEach step ops.

(** The delays of the reconnect timers armed by a list of effects. *)
Definition scheduled (effects : list Effect) : list Z :=
  omap (fun e => match e with SetTimeout d => Some d | _ => None end) effects.

Definition isOpen (op : Op) : bool :=
  match op with OpOpen => true | _ => false end.

Definition touchesConnected (op : Op) : bool :=
  match op with OpGetHealth _ | OpOpen | OpClose => true | _ => false end.

(** The event name an emission goes out under. *)
Definition channel (e : Effect) : option string :=
  match e with
  | EmitConnectionChanged _ => Some "connection-changed"
  | EmitWsConnected => Some "ws-connected"
  | EmitWsDisconnected => Some "ws-disconnected"
  | EmitEvent _ => Some "event"
  | EmitTyped type _ => Some type
  | _ => None
  end.

(** Does the emission reach the listeners of connection-changed? *)
Definition isConnectionChanged (e : Effect) : bool :=
  bool_decide (channel e = Some "connection-changed").

(** A push frame whose type is 'connection-changed': the message handler
    re-emits it under that name. *)
Definition relaysConnectionChanged (op : Op) : bool :=
  match op with
  | OpMessage _ (Value (Some type)) => bool_decide (type = "connection-changed")
  | _ => false
  end.

(** The number of reconnect timers an operation arms. *)
Definition arms (op : Op) : nat :=
  match op with
  | OpClose | OpScheduleReconnect | OpConnectWS false => 1
  | _ => 0
  end.

Definition armed (ops : list Op) : nat := sum_list (arms <$> ops).

End Daemon.

(** ** whitelist.js: settings *)

Module AppSettings.
Record t := mk {
  alwaysOnTop : bool;
  bubblePosition : string;
  bubbleSize : Z;
  maxBubbles : Z;
  pollIntervalMs : Z;
  showNotifications : bool;
}.

(** [Partial<AppSettings>] *)
Record partial := mkPartial {
  alwaysOnTop' : option bool;
  bubblePosition' : option string;
  bubbleSize' : option Z;
  maxBubbles' : option Z;
  pollIntervalMs' : option Z;
  showNotifications' : option bool;
}.
End AppSettings.

(** [DEFAULT_CONFIG.settings] *)
Definition DEFAULT_SETTINGS : AppSettings.t :=
AppSettings.mk true "right" 64 5 3000 true.

(** [updateSettings]: [{ ...this.config.settings, ...partial }] *)
Definition updateSettings (p : AppSettings.partial) (s : AppSettings.t) : AppSettings.t :=
AppSettings.mk
  (default (AppSettings.alwaysOnTop s) (AppSettings.alwaysOnTop' p))
  (default (AppSettings.bubblePosition s) (AppSettings.bubblePosition' p))
  (default (AppSettings.bubbleSize s) (AppSettings.bubbleSize' p))
  (default (AppSettings.maxBubbles s) (AppSettings.maxBubbles' p))
  (default (AppSettings.pollIntervalMs s) (AppSettings.pollIntervalMs' p))
  (default (AppSettings.showNotifications s) (AppSettings.showNotifications' p)).

(** ** bubbles.js *)

Module Bubbles.

Definition BUBBLE_SIZE : Z := 64.
Definition BUBBLE_GAP : Z := 12.
Definition EDGE_MARGIN : Z := 20.
Definition MAX_BUBBLES : nat := 5.

Record BrowserWindow := mkWindow {
  x : Z;
  y : Z;
  destroyed : bool;
}.

Inductive Effect :=
| NewWindow (userId : string) (x y : Z) (count : nat)
| SendBubbleUpdate (userId : string) (count : nat)
| Close (userId : string)
| SetPosition (userId : string) (x y : Z)
| Show (userId : string)
| Hide (userId : string).

(** [bubbles] is the [Map] from userId to window, in insertion order. *)
Record BubbleManager := mkManager {
  bubbles : list (string * BrowserWindow);
  visible : bool;
}.

Definition init : BubbleManager := {| bubbles := []; visible := true |}.

Definition Action := BubbleManager -> BubbleManager * list Effect.

Definition andThen (a b : Action) : Action :=
  fun m => let '(m1, e1) := a m in
           let '(m2, e2) := b m1 in (m2, e1 ++ e2).

Definition skip : Action := fun m => (m, []).

Fixpoint forEach {A} (f : A -> Action) (l : list A) : Action :=
  match l with
  | [] => skip
  | x :: l' => andThen (f x) (forEach f l')
  end.

(** [Map.get], [Map.delete] *)
Fixpoint get (userId : string) (l : list (string * BrowserWindow)) : option BrowserWindow :=
  match l with
  | [] => None
  | (u, w) :: l' => if bool_decide (u = userId) then Some w else get userId l'
  end.

Fixpoint delete (userId : string) (l : list (string * BrowserWindow))
  : list (string * BrowserWindow) :=
  match l with
  | [] => []
  | (u, w) :: l' => if bool_decide (u = userId) then l' else (u, w) :: delete userId l'
  end.

(** The left edge of a bubble for the configured side. *)
Definition edgeX (settings : AppSettings.t) (screenW : Z) : Z :=
  let position := str_or (Some (AppSettings.bubblePosition settings)) "right" in
  if bool_decide (position = "right")
  then screenW - BUBBLE_SIZE - EDGE_MARGIN
  else EDGE_MARGIN.

(** The top edge of the slot with the given index. *)
Definition slotY (index : nat) : Z :=
  100 + Z.of_nat index * (BUBBLE_SIZE + BUBBLE_GAP).

Definition _updateBubble (userId : string) (count : nat) : Action :=
  fun m =>
    match get userId (bubbles m) with
    | Some bubble => if destroyed bubble then (m, []) else (m, [SendBubbleUpdate userId count])
    | None => (m, [])
    end.

(** [createBubble]; [screenW] is the width of the primary display's work area. *)
Definition createBubble (settings : AppSettings.t) (screenW : Z)
    (userId : string) (unreadCount : nat) : Action :=
  fun m =>
    if bool_decide (is_Some (get userId (bubbles m))) then _updateBubble userId unreadCount m
    else if bool_decide (MAX_BUBBLES ≤ length (bubbles m))%nat then (m, [])
    else
      let index := length (bubbles m) in
      let x := edgeX settings screenW in
      let y := slotY index in
      ({| bubbles := bubbles m ++ [(userId, mkWindow x y false)]; visible := visible m |},
       [NewWindow userId x y unreadCount]).

Definition removeBubble (userId : string) : Action :=
  fun m =>
    let closing :=
      match get userId (bubbles m) with
      | Some bubble => if destroyed bubble then [] else [Close userId]
      | None => []
      end in
    ({| bubbles := delete userId (bubbles m); visible := visible m |}, closing).

(** The window's ['closed'] handler: [this.bubbles.delete(userId)]. *)
Definition onClosed (userId : string) : Action :=
  fun m => ({| bubbles := delete userId (bubbles m); visible := visible m |}, []).

(** A window of the pool is destroyed from outside the manager. *)
Definition destroyedOutside (userId : string) : Action :=
  fun m =>
    ({| bubbles := (λ uw, if bool_decide (uw.1 = userId)
                          then (uw.1, mkWindow (x uw.2) (y uw.2) true) else uw)
                     <$> bubbles m;
        visible := visible m |}, []).

Definition showAll : Action :=
  fun m =>
    ({| bubbles := bubbles m; visible := true |},
     omap (λ uw, if destroyed uw.2 then None else Some (Show uw.1)) (bubbles m)).

Definition hideAll : Action :=
  fun m =>
    ({| bubbles := bubbles m; visible := false |},
     omap (λ uw, if destroyed uw.2 then None else Some (Hide uw.1)) (bubbles m)).

Definition toggleVisibility : Action :=
  fun m => if visible m then hideAll m else showAll m.

(** The loop of [repositionAll], from slot [index] on. *)
Fixpoint reposition (xEdge : Z) (index : nat) (l : list (string * BrowserWindow))
  : list (string * BrowserWindow) * list Effect :=
  match l with
  | [] => ([], [])
  | (u, w) :: l' =>
      if destroyed w
      then let '(r, e) := reposition xEdge index l' in ((u, w) :: r, e)
      else let '(r, e) := reposition xEdge (S index) l' in
           ((u, mkWindow xEdge (slotY index) false) :: r,
            SetPosition u xEdge (slotY index) :: e)
  end.

Definition repositionAll (settings : AppSettings.t) (screenW : Z) : Action :=
  fun m =>
    let '(r, e) := reposition (edgeX settings screenW) 0 (bubbles m) in
    ({| bubbles := r; visible := visible m |}, e).

Definition destroyAll : Action :=
  fun m =>
    ({| bubbles := []; visible := visible m |},
     omap (λ uw, if destroyed uw.2 then None else Some (Close uw.1)) (bubbles m)).

Definition handleUnreadsChanged (settings : AppSettings.t) (screenW : Z)
    (userId : string) (count : nat) : Action :=
  if bool_decide (0 < count)%nat
  then createBubble settings screenW userId count
  else removeBubble userId.

(** The ['update-settings'] handler of main.ts, on the store's settings
    and the pool. *)
Definition update_settings (screenW : Z) (p : AppSettings.partial)
    (sm : AppSettings.t * BubbleManager)
  : (AppSettings.t * BubbleManager) * list Effect :=
  let settings' := updateSettings p (fst sm) in
  match AppSettings.bubblePosition' p with
  | Some _ => let '(m', e) := repositionAll settings' screenW (snd sm) in
              ((settings', m'), e)
  | None => ((settings', snd sm), [])
  end.

(** What can happen to the pool between two turns of the event loop;
    the settings are those of the store at the time of the call. *)
Inductive Op :=
| OpUnreadsChanged (settings : AppSettings.t) (screenW : Z) (userId : string) (count : nat)
| OpRemoveBubble (userId : string)
| OpClosed (userId : string)
| OpDestroyedOutside (userId : string)
| OpShowAll
| OpHideAll
| OpToggleVisibility
| OpRepositionAll (settings : AppSettings.t) (screenW : Z)
| OpDestroyAll.

Definition step (op : Op) : Action :=
  match op with
  | OpUnreadsChanged s w u c => handleUnreadsChanged s w u c
  | OpRemoveBubble u => removeBubble u
  | OpClosed u => onClosed u
  | OpDestroyedOutside u => destroyedOutside u
  | OpShowAll => showAll
  | OpHideAll => hideAll
  | OpToggleVisibility => toggleVisibility
  | OpRepositionAll s w => repositionAll s w
  | OpDestroyAll => destroyAll
  end.

Definition run (ops : list Op) : Action := forEach step ops.

(** The windows of the pool that are alive. *)
Definition live (m : BubbleManager) : list (string * BrowserWindow) :=
  List.filter (λ uw, negb (destroyed uw.2)) (bubbles m).

(** The live windows sit in the slots 0, 1, ... in order, from [index] on. *)
Fixpoint compactFrom (index : nat) (l : list (string * BrowserWindow)) : bool :=
  match l with
  | [] => true
  | (_, w) :: l' => (y w =? slotY index) && compactFrom (S index) l'
  end.

Definition compact (m : BubbleManager) : bool := compactFrom 0 (live m).

End Bubbles.

(** ** whitelist.js: the store *)

Module Whitelist.

(** The argument of [addUser]. *)
Module User.
Record t := mk {
  userId : JsId;
  username : option string;
  displayName : option string;
}.
End User.

(** [this.config] *)
Record WhitelistManager := mkConfig {
  whitelist : list WhitelistEntry.t;
  settings : AppSettings.t;
}.

(** [save] writes the whole config. *)
Inductive Effect :=
| Save (config : WhitelistManager).

Definition DEFAULT_CONFIG : WhitelistManager := mkConfig [] DEFAULT_SETTINGS.



Definition addUser (user : User.t) (c : WhitelistManager)
  : bool * WhitelistManager * list Effect :=
  let id := String_ (Some (User.userId user)) in
  if isWhitelisted (whitelist c) id then (false, c, [])
  else
    let entry := WhitelistEntry.mk id
                   (str_or (User.username user) "")
                   (str_or (User.displayName user) (str_or (User.username user) id)) in
    let c' := mkConfig (whitelist c ++ [entry]) (settings c) in
    (true, c', [Save c']).

Definition removeUser (userId : JsId) (c : WhitelistManager)
  : bool * WhitelistManager * list Effect :=
  let id := String_ (Some userId) in
  let before := length (whitelist c) in
  let kept := List.filter (fun u => negb (bool_decide (WhitelistEntry.userId u = id)))
                (whitelist c) in
  let c' := mkConfig kept (settings c) in
  if negb (length kept =? before)%nat then (true, c', [Save c'])
  else (false, c', []).

Definition getUserInfo (userId : JsId) (c : WhitelistManager) : option WhitelistEntry.t :=
  let id := String_ (Some userId) in
  List.find (fun u => bool_decide (WhitelistEntry.userId u = id)) (whitelist c).

(** The manager's [updateSettings]: merge, then save. *)
Definition updateSettings (p : AppSettings.partial) (c : WhitelistManager)
  : WhitelistManager * list Effect :=
  let c' := mkConfig (whitelist c) (updateSettings p (settings c)) in
  (c', [Save c']).

(** The calls that change the store. *)
Inductive Op :=
| OpAddUser (user : User.t)
| OpRemoveUser (userId : JsId)
| OpUpdateSettings (p : AppSettings.partial).

Definition step (op : Op) (c : WhitelistManager) : WhitelistManager * list Effect :=
  match op with
  | OpAddUser user => let '(_, c', e) := addUser user c in (c', e)
  | OpRemoveUser u => let '(_, c', e) := removeUser u c in (c', e)
  | OpUpdateSettings p => updateSettings p c
  end.

Fixpoint run (ops : list Op) (c : WhitelistManager) : WhitelistManager * list Effect :=
  match ops with
  | [] => (c, [])
  | op :: ops' => let '(c1, e1) := step op c in
                  let '(c2, e2) := run ops' c1 in (c2, e1 ++ e2)
  end.


(** The config on disk after a list of effects, from [disk]. *)
Definition written (disk : option WhitelistManager) (effects : list Effect)
  : option WhitelistManager :=
  foldl (fun d e => match e with Save c => Some c end) disk effects.

End Whitelist.

(** ** tracker.ts: the reads, and what listeners and the disk see *)

Module TrackerExt.

Import TelegramMessage Tracker.

(** [getTotalUnreadCount]: the sum of the rows' counts. *)
Definition getTotalUnreadCount (t : MessageTracker) : nat :=
  map_fold (fun _ data total => (total + UnreadEntry.count data)%nat) 0%nat (unreads t).

(** The inputs of the tracker, the whitelist left to the store. *)
Inductive Input :=
| InPush (event : DaemonEvent.t)
| InPollDialog (d : TelegramDialog.t) (fetched : option (list TelegramMessage.t))
| InMarkRead (userId : string)
| InStop.

Definition withWhitelist (whitelist : list WhitelistEntry.t) (i : Input) : Op :=
  match i with
  | InPush ev => OpPush whitelist ev
  | InPollDialog d fetched => OpPollDialog whitelist d fetched
  | InMarkRead u => OpMarkRead u
  | InStop => OpStop
  end.

(** The content of last-seen.json after a list of effects, from [disk]. *)
Definition persisted (disk : gmap string Z) (effects : list Effect) : gmap string Z :=
  foldl (fun d e => match e with WriteLastSeen content => content | _ => d end)
        disk effects.

(** The counts a listener of ['user-unreads-changed'] receives for [userId]. *)
Definition countsFor (userId : string) (effects : list Effect) : list nat :=
  omap (fun e => match e with
                 | EmitUserUnreadsChanged u c => if bool_decide (u = userId) then Some c else None
                 | _ => None
                 end) effects.

(** The user ids a list of effects notifies about. *)
Definition notified (e : Effect) : option string :=
  match e with
  | EmitNewMessage u _ _ | EmitUserUnreadsChanged u _ | EmitMessagesRead u => Some u
  | _ => None
  end.

End TrackerExt.

(** ** daemon.js: timers, the flag as listeners see it, the avatar cache *)

Module DaemonExt.

Import Daemon.

(** The reconnect timers armed and not cleared, most recent first
    (a timer that fired is still counted: an upper bound). *)
Definition trackTimeouts (armed : list Z) (e : Effect) : list Z :=
  match e with
  | SetTimeout d => d :: armed
  | ClearTimeout d => match armed with
                      | d' :: rest => if bool_decide (d' = d) then rest else armed
                      | [] => []
                      end
  | _ => armed
  end.

(** The health intervals set and not cleared. *)
Definition trackIntervals (set : list Z) (e : Effect) : list Z :=
  match e with
  | SetInterval i => i :: set
  | ClearInterval i => match set with
                       | i' :: rest => if bool_decide (i' = i) then rest else set
                       | [] => []
                       end
  | _ => set
  end.

(** What a listener of ['connection-changed'] is called with: the flag,
    from [getHealth] and the open and close handlers, or a frame of that
    type, from the message handler. *)
Inductive Notification :=
| Flag (connected : bool)
| Relayed (frame : string).

Definition notification (e : Effect) : option Notification :=
  match e with
  | EmitConnectionChanged b => Some (Flag b)
  | EmitTyped type frame =>
      if bool_decide (type = "connection-changed") then Some (Relayed frame) else None
  | _ => None
  end.

(** The last ['connection-changed'] a listener received, from [seen]. *)
Definition lastConnectionChanged (seen : option Notification) (effects : list Effect)
  : option Notification :=
  foldl (fun s e => match notification e with Some n => Some n | None => s end)
        seen effects.

(** The last flag among them. *)
Definition lastFlag (seen : option bool) (effects : list Effect) : option bool :=
  foldl (fun s e => match e with EmitConnectionChanged b => Some b | _ => s end)
        seen effects.

(** [24 * 60 * 60 * 1000] *)
Definition DAY : Z := 24 * 60 * 60 * 1000.

(** What the photo request resolved to. *)
Inductive PhotoResponse :=
| Rejected
| NotABuffer
| Buffer (length : Z).

Inductive FsEffect :=
| PhotoRequest (userId : string)
| WriteFile (userId : string).

(** [getProfilePhoto]; [files] maps a userId to the mtime of its cached
    file, [now] is [Date.now()] at the freshness test, [written] the mtime
    the file gets if it is written. The result is the cache path, named by
    its userId. *)
Definition getProfilePhoto (userId : string) (now written : Z) (response : PhotoResponse)
    (files : gmap string Z) : option string * gmap string Z * list FsEffect :=
  let fetch :=
    match response with
    | Buffer n =>
        if 100 <? n
        then (Some userId, <[userId := written]> files, [PhotoRequest userId; WriteFile userId])
        else (None, files, [PhotoRequest userId])
    | Rejected | NotABuffer => (None, files, [PhotoRequest userId])
    end in
  match files !! userId with
  | Some mtimeMs => if now - mtimeMs <? DAY then (Some userId, files, []) else fetch
  | None => fetch
  end.

End DaemonExt.

(** ** bubbles.js: the avatar cache, and runs without removals *)

Module BubblesExt.

Import Bubbles.




(** Operations that remove no window from the pool. *)
Definition keeps (op : Op) : bool :=
  match op with
  | OpUnreadsChanged _ _ _ count => bool_decide (0 < count)%nat
  | OpShowAll | OpHideAll | OpToggleVisibility | OpRepositionAll _ _ => true
  | _ => false
  end.

(** The contacts of the pool, in order. *)
Definition contacts (m : BubbleManager) : list string := fst <$> bubbles m.

End BubblesExt.

(** ** main.ts: the wiring of tracker, pool and tray *)

Module Main.

(** [updateTrayIcon]: the icon file and the tooltip, from
    [tracker.getTotalUnreadCount()] and [daemon.connected]. *)
Definition updateTrayIcon (totalUnreads : nat) (connected : bool) : string * string :=
  if negb connected then ("tray-icon.png", "Oceangram — Disconnected")
  else if bool_decide (0 < totalUnreads)%nat
       then ("tray-unread.png", "Oceangram — " +:+ pretty totalUnreads +:+ " unread")
       else ("tray-icon.png", "Oceangram — Connected").

(** The tracker and the pool it drives. *)
Record App := mkApp {
  tracker : Tracker.MessageTracker;
  pool : Bubbles.BubbleManager;
}.

(** The listener [bubbles.init] registers on the tracker. *)
Definition onTrackerEvent (settings : AppSettings.t) (screenW : Z) (e : Tracker.Effect)
  : Bubbles.Action :=
  match e with
  | Tracker.EmitUserUnreadsChanged userId count =>
      Bubbles.handleUnreadsChanged settings screenW userId count
  | _ => Bubbles.skip
  end.

(** A tracker operation, its notifications delivered to the pool in order. *)
Definition trackerStep (settings : AppSettings.t) (screenW : Z) (op : Tracker.Op)
    (a : App) : App * list Bubbles.Effect :=
  let '(t', events) := Tracker.step op (tracker a) in
  let '(p', effects) := Bubbles.forEach (onTrackerEvent settings screenW) events (pool a) in
  (mkApp t' p', effects).

(** [openChatPopup] for a contact without an open popup: the popup is
    created, the contact marked read, its bubble removed. *)
Definition openChatPopup (settings : AppSettings.t) (screenW : Z) (userId : string)
    (a : App) : App * list Bubbles.Effect :=
  let '(a1, e1) := trackerStep settings screenW (Tracker.OpMarkRead userId) a in
  let '(p2, e2) := Bubbles.removeBubble userId (pool a1) in
  (mkApp (tracker a1) p2, e1 ++ e2).

(** What can happen to the pair between two turns of the event loop. *)
Inductive Op :=
| OpTracker (settings : AppSettings.t) (screenW : Z) (op : Tracker.Op)
| OpOpenChatPopup (settings : AppSettings.t) (screenW : Z) (userId : string)
| OpPool (op : Bubbles.Op).

Definition step (op : Op) (a : App) : App * list Bubbles.Effect :=
  match op with
  | OpTracker s w top => trackerStep s w top a
  | OpOpenChatPopup s w u => openChatPopup s w u a
  | OpPool bop => let '(p', e) := Bubbles.step bop (pool a) in (mkApp (tracker a) p', e)
  end.

(** In the program the unread notification reaches the pool from the
    tracker only: the pool operations of a wired run are the others. *)
Definition wired (op : Op) : bool :=
  match op with
  | OpPool (Bubbles.OpUnreadsChanged _ _ _ _) => false
  | _ => true
  end.

Fixpoint run (ops : list Op) (a : App) : App * list Bubbles.Effect :=
  match ops with
  | [] => (a, [])
  | op :: ops' => let '(a1, e1) := step op a in
                  let '(a2, e2) := run ops' a1 in (a2, e1 ++ e2)
  end.

Definition init (loaded : gmap string Z) : App :=
  mkApp (Tracker.init loaded) Bubbles.init.

End Main.

(** ** Sample data: the scenario of contact "42" and dialog "d1" *)

Module Samples.

Definition wl42 : list WhitelistEntry.t := [WhitelistEntry.mk "42" "" "A"].

(** A message of user 42 with the given id, as a push frame carries it. *)
Definition msg (i : Z) : TelegramMessage.t :=
  TelegramMessage.mk i "hi" (Some (JNum 42)) None (Some "d1") None.

Definition push (i : Z) : DaemonEvent.t := DaemonEvent.mk (Some (msg i)) (msg i).

Definition d1 : TelegramDialog.t := TelegramDialog.mk (JStr "d1") (Some (JNum 42)).

(** The tracker after a push of message 7. *)
Definition t7 : Tracker.MessageTracker :=
  (Tracker.run [Tracker.OpPush wl42 (push 7)] (Tracker.init ∅)).1.

(** Message 7 pushed and read, then message 5 pushed. *)
Definition t75 : Tracker.MessageTracker :=
  (Tracker.run [Tracker.OpPush wl42 (push 7); Tracker.OpMarkRead "42";
                Tracker.OpPush wl42 (push 5)] (Tracker.init ∅)).1.

(** A tracker whose stored watermark of "d1" is 0. *)
Definition t0 : Tracker.MessageTracker := Tracker.init {["d1" := 0]}.

(** Settings with [maxBubbles] lowered to 3. *)
Definition settings3 : AppSettings.t :=
  updateSettings (AppSettings.mkPartial None None None (Some 3) None None) DEFAULT_SETTINGS.

(** Unread notifications of four contacts, under [settings3]. *)
Definition four_unreads : list Bubbles.Op :=
  [Bubbles.OpUnreadsChanged settings3 1440 "1" 1; Bubbles.OpUnreadsChanged settings3 1440 "2" 1;
   Bubbles.OpUnreadsChanged settings3 1440 "3" 1; Bubbles.OpUnreadsChanged settings3 1440 "4" 1].

(** Contacts "A" and "B" get a bubble each, then "A" is read. *)
Definition after_removal : Bubbles.BubbleManager :=
  (Bubbles.run [Bubbles.OpUnreadsChanged DEFAULT_SETTINGS 1440 "A" 1;
                Bubbles.OpUnreadsChanged DEFAULT_SETTINGS 1440 "B" 1;
                Bubbles.OpUnreadsChanged DEFAULT_SETTINGS 1440 "A" 0] Bubbles.init).1.

(** A pool holding five bubbles. *)
Definition full_pool : Bubbles.BubbleManager :=
  (Bubbles.run ((λ u, Bubbles.OpUnreadsChanged DEFAULT_SETTINGS 1440 u 1)
                  <$> ["1"; "2"; "3"; "4"; "5"]) Bubbles.init).1.

End Samples.

(** ** Scenarios of marking read *)

Module ReadScenarios.

Import Tracker.

(** The ten most recent messages of "d1" as the backend lists them,
    newest first. *)
Definition newestFirst : list TelegramMessage.t :=
  [Samples.msg 7; Samples.msg 6; Samples.msg 5].

(** Watermark 4 stored for "d1", then one poll of the dialog. *)
Definition polled : MessageTracker :=
  (run [OpPollDialog Samples.wl42 Samples.d1 (Some newestFirst)] (init {["d1" := 4]})).1.

(** Message 7 of user 42 in a push frame that names no dialog. *)
Definition bare : TelegramMessage.t :=
  TelegramMessage.mk 7 "hi" (Some (JNum 42)) None None None.

(** Watermark 3 stored for "d1", then the push of [bare]. *)
Definition pushedBare : MessageTracker :=
  (run [OpPush Samples.wl42 (DaemonEvent.mk (Some bare) bare)] (init {["d1" := 3]})).1.

End ReadScenarios.

(** ** Properties of the unread tracker *)

Module TrackerFacts.

Import TelegramMessage Tracker.

Lemma tracker_eta (t : MessageTracker) :
  {| unreads := unreads t; lastSeenIds := lastSeenIds t |} = t.
Proof. by destruct t. Qed.

Lemma hasId_spec (l : list TelegramMessage.t) (msg : TelegramMessage.t) :
  hasId l msg = true ↔ id msg ∈ id <$> l.
Proof.
  unfold hasId. rewrite existsb_exists, list_elem_of_fmap.
  split.
  - intros (m & Hin & Heq). exists m. split; [lia | by apply list_elem_of_In].
  - intros (m & Heq & Hin). exists m. split; [by apply list_elem_of_In | lia].
Qed.

Lemma hasId_app (l1 l2 : list TelegramMessage.t) (msg : TelegramMessage.t) :
  hasId (l1 ++ l2) msg = hasId l1 msg || hasId l2 msg.
Proof. apply existsb_app. Qed.

Lemma hasId_self (msg : TelegramMessage.t) : hasId [msg] msg = true.
Proof. unfold hasId. simpl. by rewrite Z.eqb_refl. Qed.

(** *** The three cases of [_addUnread] *)

Lemma addUnread_new_row userId dialogId msg t :
  unreads t !! userId = None →
  _addUnread userId dialogId msg t =
    ({| unreads := <[userId := UnreadEntry.mk (Some dialogId) [msg] 1]> (unreads t);
        lastSeenIds := lastSeenIds t |},
     [EmitNewMessage userId dialogId msg; EmitUserUnreadsChanged userId 1]).
Proof.
  intros Hno. unfold _addUnread. rewrite Hno, lookup_insert_eq. simpl.
  by rewrite insert_insert_eq.
Qed.

Lemma addUnread_duplicate userId dialogId msg t e :
  unreads t !! userId = Some e →
  hasId (UnreadEntry.messages e) msg = true →
  _addUnread userId dialogId msg t = (t, []).
Proof.
  intros He Hdup. unfold _addUnread. rewrite !He. simpl. rewrite Hdup.
  by rewrite tracker_eta.
Qed.

Lemma addUnread_append userId dialogId msg t e :
  unreads t !! userId = Some e →
  hasId (UnreadEntry.messages e) msg = false →
  _addUnread userId dialogId msg t =
    ({| unreads := <[userId := UnreadEntry.mk (Some dialogId)
                                 (UnreadEntry.messages e ++ [msg])
                                 (length (UnreadEntry.messages e ++ [msg]))]> (unreads t);
        lastSeenIds := lastSeenIds t |},
     [EmitNewMessage userId dialogId msg;
      EmitUserUnreadsChanged userId (length (UnreadEntry.messages e ++ [msg]))]).
Proof.
  intros He Hfresh. unfold _addUnread. rewrite !He. simpl. by rewrite Hfresh.
Qed.

(** Case analysis on a call of [_addUnread], one goal per case. *)
Ltac addUnread_cases u d m t :=
  let e := fresh "e" in
  let He := fresh "He" in
  let Hid := fresh "Hid" in
  destruct (unreads t !! u) as [e|] eqn:He;
  [ destruct (hasId (UnreadEntry.messages e) m) eqn:Hid;
    [ rewrite (addUnread_duplicate u d m t e He Hid)
    | rewrite (addUnread_append u d m t e He Hid) ]
  | rewrite (addUnread_new_row u d m t He) ].

Lemma addUnread_lastSeenIds userId dialogId msg t :
  lastSeenIds (_addUnread userId dialogId msg t).1 = lastSeenIds t.
Proof. addUnread_cases userId dialogId msg t; done. Qed.

Lemma addUnread_inLedger userId dialogId msg t :
  inLedger userId msg (_addUnread userId dialogId msg t).1 = true.
Proof.
  unfold inLedger.
  addUnread_cases userId dialogId msg t; simpl.
  - by rewrite He.
  - rewrite lookup_insert_eq. simpl. by rewrite hasId_app, hasId_self, orb_true_r.
  - rewrite lookup_insert_eq. apply hasId_self.
Qed.

Lemma addUnread_keeps userId dialogId msg u m0 t :
  inLedger u m0 t = true →
  inLedger u m0 (_addUnread userId dialogId msg t).1 = true.
Proof.
  unfold inLedger. intros Hin.
  addUnread_cases userId dialogId msg t; simpl; try done.
  - destruct (decide (userId = u)) as [->|Hne].
    + rewrite lookup_insert_eq. simpl. rewrite He in Hin.
      by rewrite hasId_app, Hin.
    + by rewrite lookup_insert_ne.
  - destruct (decide (userId = u)) as [->|Hne].
    + by rewrite He in Hin.
    + by rewrite lookup_insert_ne.
Qed.

Lemma addUnread_inLedger_dup userId dialogId msg t :
  inLedger userId msg t = true →
  _addUnread userId dialogId msg t = (t, []).
Proof.
  unfold inLedger. intros Hin.
  destruct (unreads t !! userId) as [e|] eqn:He; [|done].
  by eapply addUnread_duplicate.
Qed.

(** *** Loops of acceptances *)

Lemma forEach_app {A} (f : A → Action) (l1 l2 : list A) t :
  forEach f (l1 ++ l2) t = andThen (forEach f l1) (forEach f l2) t.
Proof.
  revert t. induction l1 as [|x l1 IH]; intros t; simpl.
  - unfold andThen, skip. by destruct (forEach f l2 t).
  - unfold andThen in *. destruct (f x t) as [t1 e1]. rewrite IH.
    destruct (forEach f l1 t1) as [t2 e2]. destruct (forEach f l2 t2) as [t3 e3].
    by rewrite app_assoc.
Qed.

Lemma forEach_invariant {A} (P : MessageTracker → Prop) (f : A → Action) (l : list A) :
  (∀ x t, P t → P (f x t).1) → ∀ t, P t → P (forEach f l t).1.
Proof.
  intros Hstep. induction l as [|x l IH]; intros t Ht; simpl; [done|].
  unfold andThen. specialize (Hstep x t Ht). destruct (f x t) as [t1 e1].
  specialize (IH t1 Hstep). by destruct (forEach f l t1).
Qed.

Lemma forEach_addUnread_covers userId dialogId (l : list TelegramMessage.t) t :
  ∀ m, m ∈ l → inLedger userId m (forEach (_addUnread userId dialogId) l t).1 = true.
Proof.
  revert t. induction l as [|x l IH]; intros t m Hin; [by apply elem_of_nil in Hin|].
  simpl. unfold andThen.
  pose proof (addUnread_inLedger userId dialogId x t) as Hx.
  destruct (_addUnread userId dialogId x t) as [t1 e1]. simpl in Hx.
  apply elem_of_cons in Hin as [->|Hin].
  - pose proof (forEach_invariant (λ t, inLedger userId x t = true)
                  (_addUnread userId dialogId) l) as Hinv.
    specialize (Hinv (λ y t', addUnread_keeps userId dialogId y userId x t') t1 Hx).
    by destruct (forEach (_addUnread userId dialogId) l t1).
  - specialize (IH t1 m Hin). by destruct (forEach (_addUnread userId dialogId) l t1).
Qed.

Lemma forEach_addUnread_all_dup userId dialogId (l : list TelegramMessage.t) t :
  (∀ m, m ∈ l → inLedger userId m t = true) →
  forEach (_addUnread userId dialogId) l t = (t, []).
Proof.
  induction l as [|x l IH]; intros Hall; [done|].
  simpl. unfold andThen.
  rewrite addUnread_inLedger_dup by (apply Hall; left).
  rewrite IH; [done|]. intros m Hm. apply Hall. by right.
Qed.

Lemma forEach_addUnread_lastSeenIds userId dialogId (l : list TelegramMessage.t) t :
  lastSeenIds (forEach (_addUnread userId dialogId) l t).1 = lastSeenIds t.
Proof.
  apply (forEach_invariant (λ t', lastSeenIds t' = lastSeenIds t)); [|done].
  intros x t' <-. apply addUnread_lastSeenIds.
Qed.

(** *** The ledger invariant *)

Lemma addUnread_ledger_ok userId dialogId msg t :
  ledger_ok t → ledger_ok (_addUnread userId dialogId msg t).1.
Proof.
  intros Hok u e'.
  addUnread_cases userId dialogId msg t; simpl; [apply Hok| |].
  - destruct (decide (userId = u)) as [->|Hne].
    + rewrite lookup_insert_eq. intros [= <-].
      destruct (Hok u e He) as (_ & Hnd & _ & _).
      repeat split; simpl; [|by destruct (UnreadEntry.messages e)|by eexists].
      rewrite fmap_app. apply NoDup_app. repeat split; [done| |apply NoDup_singleton].
      intros i Hi ->%list_elem_of_singleton.
      apply hasId_spec in Hi. congruence.
    + rewrite lookup_insert_ne by done. apply Hok.
  - destruct (decide (userId = u)) as [->|Hne].
    + rewrite lookup_insert_eq. intros [= <-].
      repeat split; simpl; [apply NoDup_singleton|done|by eexists].
    + rewrite lookup_insert_ne by done. apply Hok.
Qed.

Lemma markRead_unreads userId t :
  unreads (markRead userId t).1 = delete userId (unreads t).
Proof.
  unfold markRead. destruct (unreads t !! userId) as [e|] eqn:He; simpl.
  - by destruct (last (UnreadEntry.messages e)).
  - symmetry. by apply delete_id.
Qed.

Lemma markRead_ledger_ok userId t :
  ledger_ok t → ledger_ok (markRead userId t).1.
Proof.
  intros Hok u e. rewrite markRead_unreads.
  intros [_ He]%lookup_delete_Some. by eapply Hok.
Qed.

Lemma handleNewMessage_ledger_ok wl ev t :
  ledger_ok t → ledger_ok (_handleNewMessage wl ev t).1.
Proof.
  intros Hok. unfold _handleNewMessage.
  destruct (_ || _); [done|]. by apply addUnread_ledger_ok.
Qed.

Lemma poll_dialog_ledger_ok wl d fetched t :
  ledger_ok t → ledger_ok (_poll_dialog wl d fetched t).1.
Proof.
  intros Hok. unfold _poll_dialog.
  destruct (negb _); [done|]. destruct fetched as [[|m l]|]; try done.
  apply (forEach_invariant ledger_ok); [|done].
  intros x t'. apply addUnread_ledger_ok.
Qed.

Lemma step_ledger_ok op t : ledger_ok t → ledger_ok (step op t).1.
Proof.
  destruct op; simpl.
  - apply handleNewMessage_ledger_ok.
  - apply poll_dialog_ledger_ok.
  - apply markRead_ledger_ok.
  - done.
Qed.

Lemma init_ledger_ok loaded : ledger_ok (init loaded).
Proof. intros u e. unfold init. simpl. by rewrite lookup_empty. Qed.

Lemma run_ledger_ok ops loaded : ledger_ok (run ops (init loaded)).1.
Proof.
  apply (forEach_invariant ledger_ok); [|apply init_ledger_ok].
  intros op t. apply step_ledger_ok.
Qed.

(** A whole poll tick is the sequence of its per-dialog steps. *)
Lemma poll_as_run wl ds t :
  _poll wl true (Some ds) t =
  run ((λ df, OpPollDialog wl df.1 df.2) <$> ds) t.
Proof.
  unfold _poll, run. simpl. revert t.
  induction ds as [|df ds IH]; intros t; [done|].
  simpl. unfold andThen. destruct (_poll_dialog wl df.1 df.2 t) as [t1 e1].
  by rewrite IH.
Qed.

Lemma addUnread_emits userId dialogId x t u d m :
  EmitNewMessage u d m ∈ (_addUnread userId dialogId x t).2 →
  u = userId ∧ d = dialogId ∧ m = x ∧ inLedger userId x t = false.
Proof.
  unfold inLedger.
  addUnread_cases userId dialogId x t; simpl; intros Hin.
  - by apply elem_of_nil in Hin.
  - apply elem_of_cons in Hin as [[= -> -> ->]|Hin]; [done|].
    by apply list_elem_of_singleton in Hin.
  - apply elem_of_cons in Hin as [[= -> -> ->]|Hin]; [done|].
    by apply list_elem_of_singleton in Hin.
Qed.

Lemma forEach_addUnread_emits userId dialogId (l : list TelegramMessage.t) t u d m :
  EmitNewMessage u d m ∈ (forEach (_addUnread userId dialogId) l t).2 →
  u = userId ∧ d = dialogId ∧ m ∈ l ∧ inLedger userId m t = false.
Proof.
  revert t. induction l as [|x l IH]; intros t; simpl; [by intros ?%elem_of_nil|].
  unfold andThen.
  pose proof (addUnread_keeps userId dialogId x userId m t) as Hkeep.
  pose proof (addUnread_emits userId dialogId x t u d m) as Hfirst.
  destruct (_addUnread userId dialogId x t) as [t1 e1].
  specialize (IH t1). destruct (forEach (_addUnread userId dialogId) l t1) as [t2 e2].
  simpl in *. intros [Hin|Hin]%elem_of_app.
  - destruct (Hfirst Hin) as (-> & -> & -> & Hf). repeat split; [left|done].
  - destruct (IH Hin) as (-> & -> & Hl & Hfresh). repeat split; [by right|].
    destruct (inLedger userId m t); [|done]. by rewrite Hkeep in Hfresh.
Qed.

Lemma step_emits_fresh op t u d m :
  EmitNewMessage u d m ∈ (step op t).2 → inLedger u m t = false.
Proof.
  destruct op as [wl ev|wl dlg fetched|u'|]; simpl.
  - unfold _handleNewMessage. destruct (_ || _); [by intros ?%elem_of_nil|].
    intros Hin. by destruct (addUnread_emits _ _ _ _ _ _ _ Hin) as (-> & _ & -> & Hf).
  - unfold _poll_dialog. destruct (negb _); [by intros ?%elem_of_nil|].
    destruct fetched as [[|m0 l]|]; try by intros ?%elem_of_nil.
    intros Hin. by destruct (forEach_addUnread_emits _ _ _ _ _ _ _ Hin) as (-> & _ & _ & Hf).
  - unfold markRead. destruct (unreads t !! u') as [e|]; [|by intros ?%elem_of_nil].
    destruct (last (UnreadEntry.messages e)); simpl; intros Hin;
      repeat (apply elem_of_cons in Hin as [Hin|Hin]; [done|]);
      by apply elem_of_nil in Hin.
  - unfold stop, _saveLastSeen. simpl. intros Hin.
    apply list_elem_of_singleton in Hin. done.
Qed.

(** *** Idempotent acceptance *)

(** C1. Acceptance into a contact's ledger is idempotent. A second
    [_addUnread] of a message for the same contact, with whatever dialog id
    the second path supplies, leaves the tracker as the first left it and
    emits nothing; a message whose id is already buffered for the contact is
    not appended and emits nothing; the push path and the poll path, run a
    second time on the same input, change nothing and emit nothing; and no
    operation emits a new-message notification for a contact and an id that
    the contact's ledger already holds. *)
Theorem accept_idempotent (userId : string) (t : MessageTracker) :
  (∀ dialogId dialogId' msg,
     let t1 := (_addUnread userId dialogId msg t).1 in
     _addUnread userId dialogId' msg t1 = (t1, []))
  ∧ (∀ dialogId msg,
       inLedger userId msg t = true → _addUnread userId dialogId msg t = (t, []))
  ∧ (∀ whitelist event,
       let t1 := (_handleNewMessage whitelist event t).1 in
       _handleNewMessage whitelist event t1 = (t1, []))
  ∧ (∀ whitelist d fetched,
       let t1 := (_poll_dialog whitelist d fetched t).1 in
       _poll_dialog whitelist d fetched t1 = (t1, []))
  ∧ (∀ op dialogId msg,
       inLedger userId msg t = true → EmitNewMessage userId dialogId msg ∉ (step op t).2).
Proof.
  repeat split.
  - intros dialogId dialogId' msg t1. apply addUnread_inLedger_dup.
    apply addUnread_inLedger.
  - intros dialogId msg. apply addUnread_inLedger_dup.
  - intros wl ev. unfold _handleNewMessage.
    destruct (_ || _); [done|]. simpl. apply addUnread_inLedger_dup.
    apply addUnread_inLedger.
  - intros wl d fetched. unfold _poll_dialog.
    destruct (negb _); [done|]. destruct fetched as [[|m l]|]; try done.
    simpl. rewrite forEach_addUnread_lastSeenIds.
    apply forEach_addUnread_all_dup. apply forEach_addUnread_covers.
  - intros op dialogId msg Hin Hemit. apply step_emits_fresh in Hemit. congruence.
Qed.

Lemma accept_idempotent_witness :
  inLedger "42" (Samples.msg 7) Samples.t7 = true
  ∧ _addUnread "42" "d2" (Samples.msg 7) Samples.t7 = (Samples.t7, []).
Proof.
  split; [reflexivity|].
  apply (proj1 (proj2 (accept_idempotent "42" Samples.t7))). reflexivity.
Defined.

(** *** The ledger invariant, on every reachable state *)

(** C5. After any sequence of tracker operations from start-up, every
    ledger row has [count] equal to the length of [messages], and no two of
    its messages share an id. *)
Theorem ledger_invariant (loaded : gmap string Z) (ops : list Op)
    (userId : string) (entry : UnreadEntry.t) :
  unreads (run ops (init loaded)).1 !! userId = Some entry →
  UnreadEntry.count entry = length (UnreadEntry.messages entry)
  ∧ NoDup (id <$> UnreadEntry.messages entry).
Proof.
  intros He. destruct (run_ledger_ok ops loaded userId entry He) as (Hc & Hnd & _).
  done.
Qed.

Lemma ledger_invariant_witness :
  ∃ entry,
    unreads Samples.t75 !! "42" = Some entry
    ∧ UnreadEntry.count entry = length (UnreadEntry.messages entry)
    ∧ NoDup (id <$> UnreadEntry.messages entry).
Proof.
  eexists. split; [reflexivity|].
  apply (ledger_invariant ∅ [OpPush Samples.wl42 (Samples.push 7); OpMarkRead "42";
                             OpPush Samples.wl42 (Samples.push 5)] "42").
  reflexivity.
Defined.

(** *** Reading an absent row *)

(** C10. For a userId without a ledger row, [getUnreads] returns the empty
    entry with a null dialog id, and the tracker is left as it was: no row
    is created. *)
Theorem getUnreads_absent (userId : string) (t : MessageTracker) :
  unreads t !! userId = None →
  getUnreads userId t = (UnreadEntry.mk None [] 0, t)
  ∧ unreads (getUnreads userId t).2 !! userId = None.
Proof.
  intros Hno. unfold getUnreads. rewrite Hno. done.
Qed.

Lemma getUnreads_absent_witness :
  unreads Samples.t7 !! "7" = None
  ∧ getUnreads "7" Samples.t7 = (UnreadEntry.mk None [] 0, Samples.t7).
Proof.
  split; [reflexivity|].
  apply (getUnreads_absent "7" Samples.t7). reflexivity.
Defined.

(** *** Watermarks *)

Lemma markRead_lastSeenIds userId t :
  lastSeenIds (markRead userId t).1 =
  match markRead_target userId t with
  | Some (dlg, i) => <[dlg := i]> (lastSeenIds t)
  | None => lastSeenIds t
  end.
Proof.
  unfold markRead, markRead_target.
  destruct (unreads t !! userId) as [e|]; [|done].
  by destruct (last (UnreadEntry.messages e)).
Qed.

Lemma step_lastSeenIds op t :
  lastSeenIds (step op t).1 =
  match op with
  | OpMarkRead u =>
      match markRead_target u t with
      | Some (dlg, i) => <[dlg := i]> (lastSeenIds t)
      | None => lastSeenIds t
      end
  | _ => lastSeenIds t
  end.
Proof.
  destruct op as [wl ev|wl d fetched|u|]; simpl.
  - unfold _handleNewMessage. destruct (_ || _); [done|]. apply addUnread_lastSeenIds.
  - unfold _poll_dialog. destruct (negb _); [done|].
    destruct fetched as [[|m l]|]; try done. apply forEach_addUnread_lastSeenIds.
  - apply markRead_lastSeenIds.
  - done.
Qed.





(** *** The poll filter *)

Lemma newMsgs_elem lastSeen userId messages m :
  m ∈ newMsgs lastSeen userId messages ↔
  ∃ w, lastSeen = Some w ∧ w ≠ 0 ∧ m ∈ messages ∧ w < id m ∧ sender m = userId.
Proof.
  unfold newMsgs, sender. destruct lastSeen as [w|].
  - destruct (Z.eqb_spec w 0) as [->|Hw].
    + split; [by intros ?%elem_of_nil|]. by intros (w & [= <-] & Hw & _).
    + rewrite list_elem_of_In, filter_In, <- list_elem_of_In.
      rewrite andb_true_iff, Z.ltb_lt, bool_decide_eq_true.
      split.
      * intros (Hin & Hlt & Hs). by exists w.
      * by intros (w' & [= <-] & _ & Hin & Hlt & Hs).
  - split; [by intros ?%elem_of_nil|]. by intros (w & [=] & _).
Qed.

Lemma addUnread_inLedger_inv userId dialogId x t u m :
  inLedger u m (_addUnread userId dialogId x t).1 = true →
  inLedger u m t = true ∨ (u = userId ∧ id x = id m).
Proof.
  unfold inLedger.
  addUnread_cases userId dialogId x t; simpl; [by left| |].
  - destruct (decide (userId = u)) as [->|Hne].
    + rewrite lookup_insert_eq, He. simpl. rewrite hasId_app.
      intros [H|H]%orb_true_iff; [by left|right].
      unfold hasId in H. simpl in H. rewrite orb_false_r in H. split; [done|lia].
    + rewrite lookup_insert_ne by done. by left.
  - destruct (decide (userId = u)) as [->|Hne].
    + rewrite lookup_insert_eq. simpl. intros H. right.
      unfold hasId in H. simpl in H. rewrite orb_false_r in H. split; [done|lia].
    + rewrite lookup_insert_ne by done. by left.
Qed.

Lemma forEach_addUnread_inLedger_inv userId dialogId (l : list TelegramMessage.t) t u m :
  inLedger u m (forEach (_addUnread userId dialogId) l t).1 = true →
  inLedger u m t = true ∨ (u = userId ∧ ∃ x, x ∈ l ∧ id x = id m).
Proof.
  revert t. induction l as [|x l IH]; intros t; simpl; [by left|].
  unfold andThen.
  pose proof (addUnread_inLedger_inv userId dialogId x t u m) as Hfirst.
  destruct (_addUnread userId dialogId x t) as [t1 e1].
  specialize (IH t1). destruct (forEach (_addUnread userId dialogId) l t1) as [t2 e2].
  simpl in *. intros H. destruct (IH H) as [H1|(-> & y & Hy & Hid)].
  - destruct (Hfirst H1) as [?|(-> & Hid)]; [by left|right].
    split; [done|]. exists x. split; [left|done].
  - right. split; [done|]. exists y. split; [by right|done].
Qed.

(** What one iteration of the poll loop does, by the stored watermark. *)
Lemma poll_dialog_unfold whitelist d messages t :
  let userId := String_ (js_or (TelegramDialog.userId d) (Some (TelegramDialog.id d))) in
  let dialogId := String_ (Some (TelegramDialog.id d)) in
  isWhitelisted whitelist userId = true →
  _poll_dialog whitelist d (Some messages) t =
  match lastSeenIds t !! dialogId with
  | Some w =>
      if bool_decide (w = 0) then (t, [])
      else forEach (_addUnread userId dialogId)
             (List.filter (λ m, bool_decide (w < id m ∧ sender m = userId)) messages) t
  | None => (t, [])
  end.
Proof.
  intros userId dialogId Hwl. unfold _poll_dialog. fold userId dialogId.
  rewrite Hwl. simpl. unfold newMsgs.
  destruct (lastSeenIds t !! dialogId) as [w|]; [|by destruct messages].
  destruct (Z.eqb_spec w 0) as [->|Hw].
  - by destruct messages.
  - rewrite bool_decide_eq_false_2 by done.
    assert (∀ l : list TelegramMessage.t,
              List.filter (λ m, (w <? id m)
                 && bool_decide (String_ (js_or (fromId m) (senderId m)) = userId)) l
              = List.filter (λ m, bool_decide (w < id m ∧ sender m = userId)) l) as ->.
    { intros l. apply filter_ext. intros m. unfold sender.
      destruct (Z.ltb_spec w (id m)); simpl.
      - apply bool_decide_ext. tauto.
      - symmetry. apply bool_decide_eq_false_2. lia. }
    by destruct messages.
Qed.

(** With a nonzero watermark stored, the messages the poll appends are
    those above the watermark whose sender is the contact: each of them is
    buffered afterwards, and each new-message notification is for one of them. *)
Lemma poll_dialog_nonzero whitelist d messages t w :
  let userId := String_ (js_or (TelegramDialog.userId d) (Some (TelegramDialog.id d))) in
  let dialogId := String_ (Some (TelegramDialog.id d)) in
  isWhitelisted whitelist userId = true →
  lastSeenIds t !! dialogId = Some w → w ≠ 0 →
  (∀ m, m ∈ messages → w < id m → sender m = userId →
        inLedger userId m (_poll_dialog whitelist d (Some messages) t).1 = true)
  ∧ (∀ u dlg m, EmitNewMessage u dlg m ∈ (_poll_dialog whitelist d (Some messages) t).2 →
        u = userId ∧ dlg = dialogId ∧ m ∈ messages ∧ w < id m ∧ sender m = userId
        ∧ inLedger userId m t = false).
Proof.
  intros userId dialogId Hwl Hseen Hw.
  assert (_poll_dialog whitelist d (Some messages) t =
          forEach (_addUnread userId dialogId) (newMsgs (Some w) userId messages) t) as ->.
  { unfold _poll_dialog. fold userId dialogId. rewrite Hwl, Hseen. simpl.
    destruct messages; [|done]. unfold newMsgs. by destruct (w =? 0). }
  split.
  - intros m Hin Hlt Hs. apply forEach_addUnread_covers.
    apply newMsgs_elem. by exists w.
  - intros u dlg m Hemit.
    apply forEach_addUnread_emits in Hemit as (-> & -> & Hin & Hfresh).
    apply newMsgs_elem in Hin as (w' & [= <-] & _ & Hin & Hlt & Hs). done.
Qed.

(** Without a stored watermark the poll appends nothing for the dialog. *)
Lemma poll_dialog_no_watermark whitelist d fetched t :
  lastSeenIds t !! String_ (Some (TelegramDialog.id d)) = None →
  _poll_dialog whitelist d fetched t = (t, []).
Proof.
  intros Hseen. unfold _poll_dialog. destruct (negb _); [done|].
  destruct fetched as [[|m l]|]; try done. by rewrite Hseen.
Qed.

(** C3, at the stored watermark 0. Dialog "d1" of the whitelisted contact
    "42" has the watermark 0 stored (as loaded at start-up, or as written
    by reading a pushed message with id 0); the poll fetches message 5, sent by
    42, whose id exceeds the watermark. The filter reads the stored 0 as no
    watermark, and nothing is accepted. *)
Theorem poll_zero_watermark :
  lastSeenIds Samples.t0 !! "d1" = Some 0
  ∧ lastSeenIds (run [OpPush Samples.wl42 (Samples.push 0); OpMarkRead "42"] (init ∅)).1
    = lastSeenIds Samples.t0
  ∧ isWhitelisted Samples.wl42 "42" = true
  ∧ 0 < id (Samples.msg 5)
  ∧ sender (Samples.msg 5) = "42"
  ∧ _poll_dialog Samples.wl42 Samples.d1 (Some [Samples.msg 5]) Samples.t0
    = (Samples.t0, [])
  ∧ inLedger "42" (Samples.msg 5)
      (_poll_dialog Samples.wl42 Samples.d1 (Some [Samples.msg 5]) Samples.t0).1 = false.
Proof. repeat split. Qed.

(** *** Marking read *)

(** What [markRead] does. For a contact without a ledger row it changes
    nothing and performs no effect. On a reachable state with a row for the
    contact, the buffer has a last element, the message appended last;
    [markRead] stores its id as the watermark of the row's dialog, writes the watermark map, tells the backend, removes
    the row (so the contact reads as count 0) and emits the read and the
    zero-count notifications; a later poll of that dialog accepts only ids
    above the stored one, so the same message is not buffered again. *)
Theorem markRead_spec (userId : string) :
  (∀ t, unreads t !! userId = None → markRead userId t = (t, []))
  ∧ (∀ loaded ops entry,
       let t := (run ops (init loaded)).1 in
       let t' := (markRead userId t).1 in
       unreads t !! userId = Some entry →
       ∃ latest dlg,
         last (UnreadEntry.messages entry) = Some latest
         ∧ UnreadEntry.dialogId entry = Some dlg
         ∧ lastSeenIds t' = <[dlg := id latest]> (lastSeenIds t)
         ∧ lastSeenIds t' !! dlg = Some (id latest)
         ∧ unreads t' = delete userId (unreads t)
         ∧ unreads t' !! userId = None
         ∧ UnreadEntry.count (getUnreads userId t').1 = 0%nat
         ∧ (markRead userId t).2 =
             [WriteLastSeen (lastSeenIds t'); DaemonMarkRead (id latest);
              EmitMessagesRead userId; EmitUserUnreadsChanged userId 0]
         ∧ ∀ whitelist d fetched,
             String_ (Some (TelegramDialog.id d)) = dlg →
             (∀ u dl m, EmitNewMessage u dl m ∈ (_poll_dialog whitelist d fetched t').2 →
                        id latest < id m)
             ∧ inLedger userId latest (_poll_dialog whitelist d fetched t').1 = false).
Proof.
  split.
  - intros t Hno. unfold markRead. by rewrite Hno.
  - intros loaded ops entry t t' He.
    destruct (run_ledger_ok ops loaded userId entry He) as (_ & _ & Hne & [dlg Hdlg]).
    destruct (last (UnreadEntry.messages entry)) as [latest|] eqn:Hlast;
      [|by apply last_None in Hlast].
    exists latest, dlg.
    assert (markRead userId t =
            ({| unreads := delete userId (unreads t);
                lastSeenIds := <[dlg := id latest]> (lastSeenIds t) |},
             [WriteLastSeen (<[dlg := id latest]> (lastSeenIds t)); DaemonMarkRead (id latest);
              EmitMessagesRead userId; EmitUserUnreadsChanged userId 0])) as Hmr.
    { unfold markRead. fold t. rewrite He, Hlast, Hdlg. simpl.
      by destruct (bool_decide (dlg = "")) eqn:Hd; [apply bool_decide_eq_true in Hd as ->|]. }
    unfold t'. rewrite Hmr. simpl.
    split_and!; try done.
    + apply lookup_insert_eq.
    + apply lookup_delete_eq.
    + unfold getUnreads. simpl. by rewrite lookup_delete_eq.
    + intros whitelist d fetched Hd. split.
      * intros u dl m. unfold _poll_dialog.
        destruct (negb _); [by intros ?%elem_of_nil|].
        destruct fetched as [[|m0 l]|]; try by intros ?%elem_of_nil.
        simpl. rewrite Hd, lookup_insert_eq.
        intros (_ & _ & Hin & _)%forEach_addUnread_emits.
        apply newMsgs_elem in Hin as (w & [= <-] & _ & _ & Hlt & _). done.
      * destruct (inLedger userId latest (_poll_dialog _ _ _ _).1) eqn:Hin; [|done].
        exfalso. revert Hin. unfold _poll_dialog.
        assert (inLedger userId latest
                  {| unreads := delete userId (unreads t);
                     lastSeenIds := <[dlg := id latest]> (lastSeenIds t) |} = false) as Hgone.
        { unfold inLedger. simpl. by rewrite lookup_delete_eq. }
        destruct (negb _); [simpl; congruence|].
        destruct fetched as [[|m0 l]|]; try (simpl; congruence).
        simpl. rewrite Hd, lookup_insert_eq.
        intros [Hold|(_ & x & Hx & Hid)]%forEach_addUnread_inLedger_inv; [congruence|].
        apply newMsgs_elem in Hx as (w & [= <-] & _ & _ & Hlt & _). lia.
Qed.

Lemma markRead_spec_witness :
  ∃ latest,
    unreads Samples.t7 !! "42" = Some (UnreadEntry.mk (Some "d1") [latest] 1)
    ∧ lastSeenIds (markRead "42" Samples.t7).1 !! "d1" = Some (id latest)
    ∧ unreads (markRead "42" Samples.t7).1 !! "42" = None.
Proof.
  exists (Samples.msg 7). split; [reflexivity|].
  destruct (proj2 (markRead_spec "42") ∅ [OpPush Samples.wl42 (Samples.push 7)]
              (UnreadEntry.mk (Some "d1") [Samples.msg 7] 1) eq_refl)
    as (latest & dlg & Hlast & Hdlg & _ & Hwm & _ & Hgone & _).
  injection Hlast as <-. injection Hdlg as <-. split; [exact Hwm|exact Hgone].
Defined.

(** C4, at a newest-first poll and at a push frame without a dialog id.
    With watermark 4 stored for "d1", a poll listing 7, 6, 5 buffers them in
    that order; [markRead] takes the tail of the buffer, message 5, not the
    latest message 7, so the watermark becomes 5, and the next poll listing
    the same messages accepts 7 and 6 again. And when message 7 was pushed
    in a frame naming no dialog, the row's dialog is the empty string:
    [markRead] stores 7 under that key, the watermark of "d1" stays 3, and
    the next poll of "d1" accepts message 7 again. *)
Theorem markRead_stores_tail :
  id <$> UnreadEntry.messages (getUnreads "42" ReadScenarios.polled).1 = [7; 6; 5]
  ∧ lastSeenIds (markRead "42" ReadScenarios.polled).1 !! "d1" = Some 5
  ∧ id <$> UnreadEntry.messages
             (getUnreads "42"
                (_poll_dialog Samples.wl42 Samples.d1 (Some ReadScenarios.newestFirst)
                   (markRead "42" ReadScenarios.polled).1).1).1 = [7; 6]
  ∧ UnreadEntry.dialogId (getUnreads "42" ReadScenarios.pushedBare).1 = Some ""
  ∧ lastSeenIds (markRead "42" ReadScenarios.pushedBare).1 !! "" = Some 7
  ∧ lastSeenIds (markRead "42" ReadScenarios.pushedBare).1 !! "d1" = Some 3
  ∧ id <$> UnreadEntry.messages
             (getUnreads "42"
                (_poll_dialog Samples.wl42 Samples.d1 (Some [Samples.msg 7])
                   (markRead "42" ReadScenarios.pushedBare).1).1).1 = [7].
Proof. split_and!; reflexivity. Qed.

End TrackerFacts.

(** ** Properties of the connection supervisor *)

Module DaemonFacts.

Import Daemon.

Lemma scheduled_app e1 e2 : scheduled (e1 ++ e2) = scheduled e1 ++ scheduled e2.
Proof. apply omap_app. Qed.

Lemma scheduleReconnect_spec c :
  scheduled (_scheduleReconnect c).2 = [backoff (reconnectAttempts c) (maxReconnectDelay c)]
  ∧ reconnectAttempts (_scheduleReconnect c).1 = S (reconnectAttempts c)
  ∧ maxReconnectDelay (_scheduleReconnect c).1 = maxReconnectDelay c
  ∧ connected (_scheduleReconnect c).1 = connected c.
Proof.
  unfold _scheduleReconnect. simpl. rewrite scheduled_app.
  by destruct (reconnectTimer c).
Qed.

Lemma step_scheduled op c :
  isOpen op = false →
  scheduled (step op c).2 =
    (λ k, backoff k (maxReconnectDelay c)) <$> seq (reconnectAttempts c) (arms op)
  ∧ reconnectAttempts (step op c).1 = (reconnectAttempts c + arms op)%nat
  ∧ maxReconnectDelay (step op c).1 = maxReconnectDelay c.
Proof.
  destruct op as [ok|w ok|[|]| |data [| |[ty|]]| | | |i| |]; try done; intros _;
    rewrite ?Nat.add_0_r, ?Nat.add_1_r;
    unfold step, stop, startHealthCheck, stopHealthCheck, onClose, connectWS,
      _scheduleReconnect, andThen; simpl;
    try (by destruct c as [cn [|] a mx [rt|] [ht|]]).
  by destruct (bool_decide (ty = "")), (bool_decide (ty = "error")).
Qed.

Lemma run_scheduled ops c :
  forallb (λ op, negb (isOpen op)) ops = true →
  scheduled (run ops c).2 =
    (λ k, backoff k (maxReconnectDelay c)) <$> seq (reconnectAttempts c) (armed ops)
  ∧ reconnectAttempts (run ops c).1 = (reconnectAttempts c + armed ops)%nat
  ∧ maxReconnectDelay (run ops c).1 = maxReconnectDelay c.
Proof.
  revert c. induction ops as [|op ops IH]; intros c Hops.
  - unfold run, armed. simpl. by rewrite Nat.add_0_r.
  - simpl in Hops. apply andb_true_iff in Hops as [Hop Hops].
    apply negb_true_iff in Hop.
    destruct (step_scheduled op c Hop) as (Hs1 & Ha1 & Hm1).
    unfold run, armed in *. simpl. unfold andThen.
    destruct (step op c) as [c1 e1]. simpl in *.
    specialize (IH c1 Hops). destruct (forEach step ops c1) as [c2 e2]. simpl in *.
    destruct IH as (Hs2 & Ha2 & Hm2).
    rewrite scheduled_app, seq_app, fmap_app, Hs1, Hs2, Ha1, Hm1, Ha2, Hm2.
    repeat split; [by rewrite Ha1, Nat.add_assoc|done].
Qed.

Lemma step_maxReconnectDelay op c :
  maxReconnectDelay (step op c).1 = maxReconnectDelay c.
Proof.
  destruct op as [ok|w ok|[|]| |data [| |[ty|]]| | | |i| |];
    try (by apply step_scheduled); done.
Qed.

Lemma run_maxReconnectDelay ops c :
  maxReconnectDelay (run ops c).1 = maxReconnectDelay c.
Proof.
  revert c. induction ops as [|op ops IH]; intros c; [done|].
  unfold run in *. simpl. unfold andThen.
  pose proof (step_maxReconnectDelay op c) as H1.
  destruct (step op c) as [c1 e1]. specialize (IH c1).
  destruct (forEach step ops c1) as [c2 e2]. simpl in *. congruence.
Qed.

Lemma run_init_maxReconnectDelay pre : maxReconnectDelay (run pre init).1 = 30000.
Proof. by rewrite run_maxReconnectDelay. Qed.

Lemma armed_replicate_close N : armed (replicate N OpClose) = N.
Proof. unfold armed. induction N as [|N IH]; simpl in *; [done|by f_equal]. Qed.

Lemma no_open_replicate_close N :
  forallb (λ op, negb (isOpen op)) (replicate N OpClose) = true.
Proof. induction N as [|N IH]; simpl; done. Qed.

(** *** Reconnect backoff *)

(** C7. In every state the client can reach: scheduling a reconnect arms a
    timer of min(1000 * 2^attempts, 30000) ms and increments the attempt
    counter; the counter is set to 0 by the socket's open handler and by
    nothing else (every other operation adds the number of timers it arms).
    Hence, counting from a state with 0 attempts (start-up, or just after
    an open), the delays armed by any operations without an open are
    min(1000 * 2^(N-1), 30000) for N = 1, 2, ... with no upper limit on N,
    and right after an open the next delay is 1000 ms. *)
Theorem reconnect_backoff (pre : list Op) :
  let c := (run pre init).1 in
  (scheduled (_scheduleReconnect c).2
     = [Z.min (1000 * 2 ^ Z.of_nat (reconnectAttempts c)) 30000]
   ∧ reconnectAttempts (_scheduleReconnect c).1 = S (reconnectAttempts c))
  ∧ (∀ op, reconnectAttempts (step op c).1
           = if isOpen op then 0%nat else (reconnectAttempts c + arms op)%nat)
  ∧ (∀ ops (N : nat),
       reconnectAttempts c = 0%nat →
       forallb (λ op, negb (isOpen op)) ops = true →
       (1 ≤ N ≤ armed ops)%nat →
       scheduled (run ops c).2 !! (N - 1)%nat
       = Some (Z.min (1000 * 2 ^ (Z.of_nat N - 1)) 30000))
  ∧ (∀ N : nat, (1 ≤ N)%nat →
       scheduled (run (replicate N OpClose) (onOpen c).1).2 !! (N - 1)%nat
       = Some (Z.min (1000 * 2 ^ (Z.of_nat N - 1)) 30000))
  ∧ reconnectAttempts (onOpen c).1 = 0%nat
  ∧ scheduled (_scheduleReconnect (onOpen c).1).2 = [1000].
Proof.
  intros c.
  assert (maxReconnectDelay c = 30000) as Hmax by apply run_init_maxReconnectDelay.
  assert (∀ c0 ops (N : nat),
            maxReconnectDelay c0 = 30000 → reconnectAttempts c0 = 0%nat →
            forallb (λ op, negb (isOpen op)) ops = true →
            (1 ≤ N ≤ armed ops)%nat →
            scheduled (run ops c0).2 !! (N - 1)%nat
            = Some (Z.min (1000 * 2 ^ (Z.of_nat N - 1)) 30000)) as Hnth.
  { intros c0 ops N Hm H0 Hops HN.
    destruct (run_scheduled ops c0 Hops) as (-> & _ & _).
    rewrite list_lookup_fmap, H0, Hm, lookup_seq_lt by lia. simpl.
    unfold backoff. by replace (Z.of_nat (N - 1)) with (Z.of_nat N - 1) by lia. }
  split_and!.
  - destruct (scheduleReconnect_spec c) as (-> & _). by rewrite Hmax.
  - by destruct (scheduleReconnect_spec c) as (_ & -> & _).
  - intros op. destruct (isOpen op) eqn:Hop.
    + by destruct op.
    + by destruct (step_scheduled op c Hop) as (_ & -> & _).
  - intros ops N. by apply Hnth.
  - intros N HN. apply Hnth; [done|done|apply no_open_replicate_close|].
    rewrite armed_replicate_close. lia.
  - done.
  - destruct (scheduleReconnect_spec (onOpen c).1) as (-> & _). simpl.
    by rewrite Hmax.
Qed.

Lemma reconnect_backoff_witness :
  scheduled (run [OpClose; OpError; OpClose; OpConnectWS false] init).2 !! 2%nat
  = Some 4000.
Proof.
  apply (proj1 (proj2 (proj2 (reconnect_backoff [])))
           [OpClose; OpError; OpClose; OpConnectWS false] 3%nat).
  - reflexivity.
  - reflexivity.
  - vm_compute. lia.
Defined.

(** *** Who writes the connected flag *)

(** C8, as the code has it. The connected flag is written by exactly
    three operations: [getHealth] (to the outcome of the request), the
    socket's open handler (to true) and its close handler (to false), each
    emitting connection-changed with the value written. Every other
    operation leaves the flag as it was. The connection-changed listeners
    are reached by one more operation: the message handler, for a frame
    whose type is 'connection-changed', emits the frame under that name,
    after emitting it as 'event', and leaves the flag alone. No other
    operation (the other request wrappers, other frames, the error handler,
    connecting, reconnect scheduling, the health timer, stop) emits on
    connection-changed. *)
Theorem connected_writers (op : Op) (c : DaemonClient) :
  (touchesConnected op = false → connected (step op c).1 = connected c)
  ∧ (touchesConnected op = false → relaysConnectionChanged op = false →
       forallb (λ e, negb (isConnectionChanged e)) (step op c).2 = true)
  ∧ (∀ data, op = OpMessage data (Value (Some "connection-changed")) →
       step op c = (c, [EmitEvent data; EmitTyped "connection-changed" data])
       ∧ isConnectionChanged (EmitTyped "connection-changed" data) = true)
  ∧ (∀ ok, op = OpGetHealth ok →
       connected (step op c).1 = ok ∧ EmitConnectionChanged ok ∈ (step op c).2)
  ∧ (op = OpOpen →
       connected (step op c).1 = true ∧ EmitConnectionChanged true ∈ (step op c).2)
  ∧ (op = OpClose →
       connected (step op c).1 = false ∧ EmitConnectionChanged false ∈ (step op c).2).
Proof.
  split_and!.
  - intros Hop.
    destruct op as [ok|w ok|[|]| |data [| |[ty|]]| | | |i| |]; try done;
      unfold step, stop, startHealthCheck, stopHealthCheck, connectWS,
        _scheduleReconnect, andThen; simpl;
      try (by destruct c as [cn [|] a mx [rt|] [ht|]]).
    by destruct (bool_decide (ty = "")), (bool_decide (ty = "error")).
  - intros Hop Hrelay.
    destruct op as [ok|w ok|[|]| |data [| |[ty|]]| | | |i| |]; try done;
      unfold step, stop, startHealthCheck, stopHealthCheck, connectWS,
        _scheduleReconnect, andThen; simpl;
      try (by destruct c as [cn [|] a mx [rt|] [ht|]]).
    simpl in Hrelay. apply bool_decide_eq_false in Hrelay.
    destruct (bool_decide (ty = "")), (bool_decide (ty = "error")); try done.
    simpl. unfold isConnectionChanged. simpl.
    rewrite bool_decide_eq_false_2; [done|]. congruence.
  - by intros data ->.
  - intros ok ->. simpl. split; [done|]. right. left.
  - intros ->. simpl. split; [done|]. left.
  - intros ->. unfold step, onClose, _scheduleReconnect, andThen. simpl.
    split; [done|]. left.
Qed.

Lemma connected_writers_witness :
  connected (step OpError (onOpen init).1).1 = true
  ∧ connected (step (OpGetHealth false) (onOpen init).1).1 = false
  ∧ forallb (λ e, negb (isConnectionChanged e))
      (step (OpMessage "{}" (Value (Some "newMessage"))) init).2 = true.
Proof.
  split_and!.
  - apply (proj1 (connected_writers OpError (onOpen init).1)). reflexivity.
  - apply (proj1 (proj2 (proj2 (proj2
             (connected_writers (OpGetHealth false) (onOpen init).1)))) false).
    reflexivity.
  - apply (proj1 (proj2 (connected_writers (OpMessage "{}" (Value (Some "newMessage"))) init)));
      reflexivity.
Defined.

(** C8 fails as stated: the open handler, which is not [getHealth], turns
    the flag from false to true and emits connection-changed, and the close
    handler turns it back to false and emits it again; and the message
    handler emits on connection-changed for a frame of that type. *)
Lemma open_close_write_connected :
  connected init = false
  ∧ connected (step OpOpen init).1 = true
  ∧ EmitConnectionChanged true ∈ (step OpOpen init).2
  ∧ connected (step OpClose (step OpOpen init).1).1 = false
  ∧ EmitConnectionChanged false ∈ (step OpClose (step OpOpen init).1).2
  ∧ forallb (λ e, negb (isConnectionChanged e))
      (step (OpMessage "{}" (Value (Some "connection-changed"))) init).2 = false.
Proof.
  split_and!; try reflexivity; vm_compute; left.
Qed.

End DaemonFacts.

(** ** Properties of the bubble window pool *)

Module BubblesFacts.

Import Bubbles.

Lemma length_delete userId (l : list (string * BrowserWindow)) :
  (length (delete userId l) ≤ length l)%nat.
Proof.
  induction l as [|[u w] l IH]; simpl; [done|].
  destruct (bool_decide (u = userId)); simpl; lia.
Qed.

Lemma length_reposition xEdge index (l : list (string * BrowserWindow)) :
  length (reposition xEdge index l).1 = length l.
Proof.
  revert index. induction l as [|[u w] l IH]; intros index; simpl; [done|].
  destruct (destroyed w).
  - specialize (IH index). destruct (reposition xEdge index l). simpl in *. lia.
  - specialize (IH (S index)). destruct (reposition xEdge (S index) l). simpl in *. lia.
Qed.

Lemma step_length op m :
  (length (bubbles m) ≤ MAX_BUBBLES)%nat →
  (length (bubbles (step op m).1) ≤ MAX_BUBBLES)%nat.
Proof.
  intros Hm. destruct op as [s w u c|u|u|u| | | |s w|]; simpl.
  - unfold handleUnreadsChanged. destruct (bool_decide (0 < c)%nat).
    + unfold createBubble, _updateBubble.
      destruct (bool_decide (is_Some (get u (bubbles m)))).
      * destruct (get u (bubbles m)) as [b|]; [by destruct (destroyed b)|done].
      * destruct (bool_decide (MAX_BUBBLES ≤ length (bubbles m))%nat) eqn:Hfull; [done|].
        apply bool_decide_eq_false in Hfull. simpl. rewrite length_app. simpl. lia.
    + simpl. pose proof (length_delete u (bubbles m)). lia.
  - pose proof (length_delete u (bubbles m)). lia.
  - pose proof (length_delete u (bubbles m)). lia.
  - by rewrite length_fmap.
  - done.
  - done.
  - unfold toggleVisibility. by destruct (visible m).
  - unfold repositionAll.
    pose proof (length_reposition (edgeX s w) 0 (bubbles m)) as Hl.
    destruct (reposition (edgeX s w) 0 (bubbles m)). simpl in *. lia.
  - unfold MAX_BUBBLES. lia.
Qed.

Lemma run_length ops m :
  (length (bubbles m) ≤ MAX_BUBBLES)%nat →
  (length (bubbles (run ops m).1) ≤ MAX_BUBBLES)%nat.
Proof.
  revert m. induction ops as [|op ops IH]; intros m Hm; [done|].
  unfold run in *. simpl. unfold andThen.
  pose proof (step_length op m Hm) as H1. destruct (step op m) as [m1 e1].
  specialize (IH m1 H1). by destruct (forEach step ops m1).
Qed.

Lemma length_live m : (length (live m) ≤ length (bubbles m))%nat.
Proof. apply filter_length_le. Qed.

(** *** The cap of the pool *)

(** C6, as the code has it. Whatever settings the store holds (the
    [maxBubbles] setting is not read), the pool never holds more than
    [MAX_BUBBLES] = 5 windows. With 5 windows in the pool, a positive
    unread count of a contact without a window changes nothing and creates
    no window; a positive count of a contact with a window leaves the pool
    as it is and sends that window the update (nothing if the window is
    destroyed). *)
Theorem pool_cap :
  MAX_BUBBLES = 5%nat
  ∧ (∀ ops, (length (live (run ops init).1) ≤ length (bubbles (run ops init).1))%nat
            ∧ (length (bubbles (run ops init).1) ≤ MAX_BUBBLES)%nat)
  ∧ (∀ m settings screenW userId count,
       (MAX_BUBBLES ≤ length (bubbles m))%nat → get userId (bubbles m) = None →
       (0 < count)%nat →
       handleUnreadsChanged settings screenW userId count m = (m, []))
  ∧ (∀ m settings screenW userId count bubble,
       get userId (bubbles m) = Some bubble → (0 < count)%nat →
       handleUnreadsChanged settings screenW userId count m
       = (m, if destroyed bubble then [] else [SendBubbleUpdate userId count])).
Proof.
  split_and!.
  - done.
  - intros ops. split; [apply length_live|]. apply run_length. simpl. lia.
  - intros m s w u c Hfull Hno Hc. unfold handleUnreadsChanged, createBubble.
    rewrite bool_decide_eq_true_2 by done. rewrite Hno.
    rewrite bool_decide_eq_false_2 by (by intros [? ?]).
    by rewrite bool_decide_eq_true_2.
  - intros m s w u c b Hb Hc. unfold handleUnreadsChanged, createBubble, _updateBubble.
    rewrite bool_decide_eq_true_2 by done. rewrite Hb.
    rewrite bool_decide_eq_true_2 by by eexists.
    by destruct (destroyed b).
Qed.

Lemma pool_cap_witness :
  handleUnreadsChanged DEFAULT_SETTINGS 1440 "6" 2 Samples.full_pool
  = (Samples.full_pool, [])
  ∧ (handleUnreadsChanged DEFAULT_SETTINGS 1440 "3" 2 Samples.full_pool).2
    = [SendBubbleUpdate "3" 2].
Proof.
  split.
  - apply (proj1 (proj2 (proj2 pool_cap))); [vm_compute; lia|reflexivity|lia].
  - rewrite (proj2 (proj2 (proj2 pool_cap)) Samples.full_pool DEFAULT_SETTINGS 1440 "3" 2%nat
               (mkWindow 1356 252 false)); [reflexivity|reflexivity|lia].
Defined.

(** C6 fails as stated: with [maxBubbles] set to 3, four contacts with
    unread messages get four windows. *)
Lemma pool_exceeds_maxBubbles :
  AppSettings.maxBubbles Samples.settings3 = 3
  ∧ length (live (run Samples.four_unreads init).1) = 4%nat
  ∧ ¬ (Z.of_nat (length (live (run Samples.four_unreads init).1))
       ≤ AppSettings.maxBubbles Samples.settings3).
Proof.
  split; [reflexivity|]. split; [reflexivity|]. vm_compute. intros H. by apply H.
Qed.

(** *** Slots *)

Lemma reposition_compact xEdge index (l : list (string * BrowserWindow)) :
  compactFrom index (List.filter (λ uw, negb (destroyed uw.2)) (reposition xEdge index l).1)
  = true.
Proof.
  revert index. induction l as [|[u w] l IH]; intros index; simpl; [done|].
  destruct (destroyed w) eqn:Hd.
  - specialize (IH index). destruct (reposition xEdge index l). simpl in *.
    by rewrite Hd.
  - specialize (IH (S index)). destruct (reposition xEdge (S index) l). simpl in *.
    by rewrite Z.eqb_refl.
Qed.

(** After [repositionAll] the live windows sit in the slots 0..n-1, and a
    change of the placement setting repositions. *)
Lemma repositionAll_compact settings screenW m :
  compact (repositionAll settings screenW m).1 = true.
Proof.
  unfold compact, live, repositionAll.
  pose proof (reposition_compact (edgeX settings screenW) 0 (bubbles m)) as H.
  by destruct (reposition (edgeX settings screenW) 0 (bubbles m)).
Qed.

Lemma update_settings_compact screenW p settings m :
  is_Some (AppSettings.bubblePosition' p) →
  compact (update_settings screenW p (settings, m)).1.2 = true.
Proof.
  intros [pos Hpos]. unfold update_settings. rewrite Hpos. simpl.
  pose proof (repositionAll_compact (updateSettings p settings) screenW m) as H.
  by destruct (repositionAll (updateSettings p settings) screenW m).
Qed.

(** C9, at a removal. Contacts "A" and "B" hold the slots 0 and 1; when
    "A" is read its window is removed and "B" stays at y = 176, the slot 1,
    with slot 0 empty: [removeBubble] does not reposition. The next bubble,
    for "C", is created at index 1 = the pool's size, on top of "B". *)
Theorem removal_leaves_gap :
  bubbles Samples.after_removal = [("B", mkWindow 1356 176 false)]
  ∧ slotY 0 = 100
  ∧ compact Samples.after_removal = false
  ∧ bubbles (handleUnreadsChanged DEFAULT_SETTINGS 1440 "C" 1 Samples.after_removal).1
    = [("B", mkWindow 1356 176 false); ("C", mkWindow 1356 176 false)].
Proof. split_and!; reflexivity. Qed.

End BubblesFacts.

(** ** Properties of the whitelist store *)

Module WhitelistFacts.

Import Whitelist.

Lemma isWhitelisted_elem (wl : list WhitelistEntry.t) (id : string) :
  isWhitelisted wl id = true ↔ id ∈ WhitelistEntry.userId <$> wl.
Proof.
  unfold isWhitelisted. rewrite existsb_exists, list_elem_of_fmap. split.
  - intros (u & Hin & Heq). apply bool_decide_eq_true in Heq.
    exists u. split; [done|by apply list_elem_of_In].
  - intros (u & Heq & Hin). exists u. split; [by apply list_elem_of_In|].
    by apply bool_decide_eq_true.
Qed.

Lemma isWhitelisted_app (wl1 wl2 : list WhitelistEntry.t) (id : string) :
  isWhitelisted (wl1 ++ wl2) id = isWhitelisted wl1 id || isWhitelisted wl2 id.
Proof. apply existsb_app. Qed.

Lemma isWhitelisted_filter (wl : list WhitelistEntry.t) (id id' : string) :
  isWhitelisted
    (List.filter (λ u, negb (bool_decide (WhitelistEntry.userId u = id))) wl) id'
  = isWhitelisted wl id' && negb (bool_decide (id' = id)).
Proof.
  induction wl as [|u wl IH]; simpl; [done|].
  destruct (bool_decide (WhitelistEntry.userId u = id)) eqn:Hu; simpl.
  - apply bool_decide_eq_true in Hu. rewrite IH.
    destruct (bool_decide (WhitelistEntry.userId u = id')) eqn:Hu'; simpl; [|done].
    apply bool_decide_eq_true in Hu'.
    rewrite (bool_decide_eq_true_2 (id' = id)) by congruence.
    simpl. by rewrite andb_false_r.
  - apply bool_decide_eq_false in Hu. rewrite IH.
    destruct (bool_decide (WhitelistEntry.userId u = id')) eqn:Hu'; simpl; [|done].
    apply bool_decide_eq_true in Hu'.
    rewrite (bool_decide_eq_false_2 (id' = id)) by congruence. done.
Qed.

Lemma filter_absent (wl : list WhitelistEntry.t) (id : string) :
  isWhitelisted wl id = false →
  List.filter (λ u, negb (bool_decide (WhitelistEntry.userId u = id))) wl = wl.
Proof.
  induction wl as [|u wl IH]; simpl; [done|].
  intros [Hu Hwl]%orb_false_iff. rewrite Hu. simpl. by rewrite IH.
Qed.

Lemma filter_same_length {A} (f : A → bool) (l : list A) :
  length (List.filter f l) = length l → List.filter f l = l.
Proof.
  induction l as [|x l IH]; simpl; [done|].
  destruct (f x); simpl.
  - intros [= Hl]. by rewrite IH.
  - intros Hl. pose proof (filter_length_le f l). lia.
Qed.

Lemma filter_keeps_NoDup (wl : list WhitelistEntry.t) (f : WhitelistEntry.t → bool) :
  NoDup (WhitelistEntry.userId <$> wl) →
  NoDup (WhitelistEntry.userId <$> List.filter f wl).
Proof.
  induction wl as [|u wl IH]; simpl; [done|].
  intros [Hu Hnd]%NoDup_cons. destruct (f u); simpl; [|by apply IH].
  apply NoDup_cons. split; [|by apply IH].
  intros Hin. apply Hu. apply list_elem_of_fmap in Hin as (v & -> & Hv).
  apply list_elem_of_fmap. exists v. split; [done|].
  apply list_elem_of_In. apply list_elem_of_In in Hv. by apply filter_In in Hv as [? _].
Qed.

Lemma removeUser_unchanged userId c :
  (removeUser userId c).1.1 = false → (removeUser userId c).1.2 = c.
Proof.
  unfold removeUser.
  set (kept := List.filter _ (whitelist c)).
  destruct (Nat.eqb_spec (length kept) (length (whitelist c))) as [Hl|Hl];
    cbn [negb fst snd]; [|done].
  intros _. subst kept. rewrite (filter_same_length _ _ Hl). by destruct c.
Qed.

(** X1. [addUser]: the result tells whether the user was new; a user already
    listed changes nothing and saves nothing; a new user is listed
    afterwards, saved, and found by [getUserInfo] under its string id, while
    the membership of every other id is as before. *)
Theorem addUser_spec (user : User.t) (c : WhitelistManager) :
  let id := String_ (Some (User.userId user)) in
  let r := (addUser user c).1.1 in
  let c' := (addUser user c).1.2 in
  let e := (addUser user c).2 in
  r = negb (isWhitelisted (whitelist c) id)
  ∧ isWhitelisted (whitelist c') id = true
  ∧ (r = false → c' = c ∧ e = [])
  ∧ (r = true →
       e = [Save c']
       ∧ getUserInfo (User.userId user) c'
         = Some (WhitelistEntry.mk id (str_or (User.username user) "")
                   (str_or (User.displayName user) (str_or (User.username user) id))))
  ∧ (∀ id', id' ≠ id →
       isWhitelisted (whitelist c') id' = isWhitelisted (whitelist c) id').
Proof.
  intros id r c' e. unfold r, c', e, addUser. fold id.
  destruct (isWhitelisted (whitelist c) id) eqn:Hwl; simpl.
  - split_and!; try done.
  - split_and!; try done.
    + rewrite isWhitelisted_app, Hwl. simpl. by rewrite bool_decide_eq_true_2.
    + intros _. split; [done|]. unfold getUserInfo. fold id. simpl.
      clear r c' e. induction (whitelist c) as [|u wl IH]; simpl in *.
      * by rewrite bool_decide_eq_true_2.
      * apply orb_false_iff in Hwl as [Hu Hwl]. rewrite Hu. by apply IH.
    + intros id' Hne. rewrite isWhitelisted_app. simpl.
      rewrite (bool_decide_eq_false_2 (id = id')) by done.
      by rewrite !orb_false_r.
Qed.

(** X2. [removeUser]: the result tells whether the user was listed, and the
    config is saved exactly then; afterwards the id is not listed, whatever
    the list held, and the membership of every other id is as before. *)
Theorem removeUser_spec (userId : JsId) (c : WhitelistManager) :
  let id := String_ (Some userId) in
  let r := (removeUser userId c).1.1 in
  let c' := (removeUser userId c).1.2 in
  let e := (removeUser userId c).2 in
  r = isWhitelisted (whitelist c) id
  ∧ isWhitelisted (whitelist c') id = false
  ∧ getUserInfo userId c' = None
  ∧ e = (if r then [Save c'] else [])
  ∧ (r = false → c' = c)
  ∧ settings c' = settings c
  ∧ (∀ id', id' ≠ id →
       isWhitelisted (whitelist c') id' = isWhitelisted (whitelist c) id').
Proof.
  intros id r c' e.
  assert (isWhitelisted (whitelist c') id = false) as Hgone.
  { unfold c', removeUser. fold id.
    destruct (negb _); simpl; rewrite isWhitelisted_filter;
      by rewrite bool_decide_eq_true_2, andb_false_r. }
  assert (whitelist c' =
          List.filter (λ u, negb (bool_decide (WhitelistEntry.userId u = id))) (whitelist c))
    as Hkept.
  { unfold c', removeUser. fold id. by destruct (negb _). }
  split_and!.
  - unfold r, removeUser. fold id.
    destruct (isWhitelisted (whitelist c) id) eqn:Hwl.
    + destruct (Nat.eqb_spec
        (length (List.filter (λ u, negb (bool_decide (WhitelistEntry.userId u = id)))
                   (whitelist c))) (length (whitelist c))) as [Hl|Hl]; simpl; [|done].
      exfalso. apply filter_same_length in Hl. rewrite Hkept, Hl in Hgone. congruence.
    + rewrite (filter_absent _ _ Hwl), Nat.eqb_refl. done.
  - done.
  - unfold getUserInfo. fold id.
    destruct (List.find _ (whitelist c')) as [u|] eqn:Hfind; [|done].
    apply find_some in Hfind as [Hin Hu]. apply bool_decide_eq_true in Hu.
    exfalso. assert (isWhitelisted (whitelist c') id = true); [|congruence].
    apply isWhitelisted_elem, list_elem_of_fmap. exists u.
    split; [done|by apply list_elem_of_In].
  - unfold e, r, c', removeUser. fold id. by destruct (negb _).
  - apply removeUser_unchanged.
  - unfold c', removeUser. by destruct (negb _).
  - intros id' Hne. rewrite Hkept, isWhitelisted_filter.
    rewrite (bool_decide_eq_false_2 (id' = id)) by done. by rewrite andb_true_r.
Qed.

(** X3. Adding a user that was not listed and removing it again gives back
    the config as it was. *)
Theorem add_then_remove (user : User.t) (c : WhitelistManager) :
  isWhitelisted (whitelist c) (String_ (Some (User.userId user))) = false →
  (removeUser (User.userId user) (addUser user c).1.2).1.2 = c.
Proof.
  intros Hwl. unfold addUser. rewrite Hwl. cbn [fst snd].
  unfold removeUser. cbn [whitelist settings].
  rewrite List.filter_app. cbn [List.filter WhitelistEntry.userId].
  rewrite bool_decide_eq_true_2 by done. cbn [negb].
  rewrite app_nil_r, (filter_absent _ _ Hwl). destruct (negb _); by destruct c.
Qed.

Lemma add_then_remove_witness :
  (removeUser (JNum 7)
     (addUser (User.mk (JNum 7) (Some "g") None) (mkConfig Samples.wl42 DEFAULT_SETTINGS)).1.2).1.2
  = mkConfig Samples.wl42 DEFAULT_SETTINGS.
Proof.
  apply (add_then_remove (User.mk (JNum 7) (Some "g") None)). reflexivity.
Defined.

(** X4. [getUserInfo] finds an entry exactly for the listed ids, and the entry
    it finds is an entry of the list with that id. *)
Theorem getUserInfo_spec (userId : JsId) (c : WhitelistManager) :
  (is_Some (getUserInfo userId c)
   ↔ isWhitelisted (whitelist c) (String_ (Some userId)) = true)
  ∧ (∀ entry, getUserInfo userId c = Some entry →
       WhitelistEntry.userId entry = String_ (Some userId) ∧ entry ∈ whitelist c).
Proof.
  unfold getUserInfo. split.
  - split.
    + intros [entry Hfind]. apply find_some in Hfind as [Hin Hu].
      apply bool_decide_eq_true in Hu. apply isWhitelisted_elem, list_elem_of_fmap.
      exists entry. split; [done|by apply list_elem_of_In].
    + intros Hwl. apply isWhitelisted_elem, list_elem_of_fmap in Hwl as (u & Hu & Hin).
      destruct (List.find _ (whitelist c)) as [entry|] eqn:Hfind; [by eexists|].
      apply list_elem_of_In in Hin.
      pose proof (find_none _ _ Hfind u Hin) as Hno. simpl in Hno.
      apply bool_decide_eq_false in Hno. done.
  - intros entry Hfind. apply find_some in Hfind as [Hin Hu].
    apply bool_decide_eq_true in Hu. split; [done|by apply list_elem_of_In].
Qed.

Lemma store_step_unique op c :
  NoDup (WhitelistEntry.userId <$> whitelist c) →
  NoDup (WhitelistEntry.userId <$> whitelist (step op c).1).
Proof.
  intros Hnd. destruct op as [user|u|p]; cbn [step].
  - unfold addUser.
    destruct (isWhitelisted (whitelist c) _) eqn:Hwl; cbn [fst snd whitelist]; [done|].
    rewrite fmap_app. apply NoDup_app. split_and!; [done| |apply NoDup_singleton].
    intros id Hin Hid. cbn [fmap list_fmap WhitelistEntry.userId] in Hid.
    apply list_elem_of_singleton in Hid. subst id.
    apply isWhitelisted_elem in Hin. congruence.
  - unfold removeUser. destruct (negb _); cbn [fst snd whitelist];
      by apply filter_keeps_NoDup.
  - done.
Qed.

(** X5. A whitelist without two entries of one id stays so under any sequence
    of [addUser], [removeUser] and [updateSettings]. *)
Theorem whitelist_unique (ops : list Op) (c : WhitelistManager) :
  NoDup (WhitelistEntry.userId <$> whitelist c) →
  NoDup (WhitelistEntry.userId <$> whitelist (run ops c).1).
Proof.
  revert c. induction ops as [|op ops IH]; intros c Hnd; [done|].
  simpl. pose proof (store_step_unique op c Hnd) as H1.
  destruct (step op c) as [c1 e1]. specialize (IH c1 H1).
  by destruct (run ops c1).
Qed.

Lemma whitelist_unique_witness :
  NoDup (WhitelistEntry.userId <$>
           whitelist (run [OpAddUser (User.mk (JNum 42) None None);
                           OpAddUser (User.mk (JStr "42") (Some "a") None);
                           OpAddUser (User.mk (JNum 7) None None);
                           OpRemoveUser (JStr "7")] DEFAULT_CONFIG).1).
Proof.
  apply (whitelist_unique _ DEFAULT_CONFIG). apply NoDup_nil_2.
Defined.





Lemma addUser_spec_witness :
  (addUser (User.mk (JNum 7) (Some "g") None) DEFAULT_CONFIG).2
  = [Save (addUser (User.mk (JNum 7) (Some "g") None) DEFAULT_CONFIG).1.2].
Proof.
  apply (proj1 (proj2 (proj2 (proj2
           (addUser_spec (User.mk (JNum 7) (Some "g") None) DEFAULT_CONFIG))))).
  reflexivity.
Defined.

Lemma removeUser_spec_witness :
  (removeUser (JNum 9) (mkConfig Samples.wl42 DEFAULT_SETTINGS)).1.2
  = mkConfig Samples.wl42 DEFAULT_SETTINGS.
Proof.
  apply (proj1 (proj2 (proj2 (proj2 (proj2
           (removeUser_spec (JNum 9) (mkConfig Samples.wl42 DEFAULT_SETTINGS))))))).
  reflexivity.
Defined.

Lemma getUserInfo_spec_witness :
  is_Some (getUserInfo (JNum 42) (mkConfig Samples.wl42 DEFAULT_SETTINGS)).
Proof.
  apply (proj2 (proj1 (getUserInfo_spec (JNum 42) (mkConfig Samples.wl42 DEFAULT_SETTINGS)))).
  reflexivity.
Defined.

End WhitelistFacts.

(** ** More properties of the unread tracker *)

Module TrackerExtFacts.

Import TelegramMessage Tracker TrackerExt TrackerFacts.

(** *** The total unread count *)

Lemma total_insert_fresh m l u e :
  m !! u = None →
  getTotalUnreadCount (mkTracker (<[u:=e]> m) l)
  = (getTotalUnreadCount (mkTracker m l) + UnreadEntry.count e)%nat.
Proof.
  intros Hno. unfold getTotalUnreadCount. simpl.
  rewrite map_fold_insert_L; [done| |done]. intros. lia.
Qed.

Lemma total_delete m l u e :
  m !! u = Some e →
  getTotalUnreadCount (mkTracker m l)
  = (getTotalUnreadCount (mkTracker (delete u m) l) + UnreadEntry.count e)%nat.
Proof.
  intros He. unfold getTotalUnreadCount. simpl.
  rewrite (map_fold_delete_L _ _ u e m); [done| |done]. intros. lia.
Qed.

Lemma total_replace m l u e e' :
  m !! u = Some e →
  (getTotalUnreadCount (mkTracker (<[u:=e']> m) l) + UnreadEntry.count e
   = getTotalUnreadCount (mkTracker m l) + UnreadEntry.count e')%nat.
Proof.
  intros He. rewrite <- insert_delete_eq.
  rewrite total_insert_fresh by apply lookup_delete_eq.
  rewrite (total_delete m l u e He). lia.
Qed.

Lemma total_unreads t :
  getTotalUnreadCount t = getTotalUnreadCount (mkTracker (unreads t) (lastSeenIds t)).
Proof. by destruct t. Qed.

Lemma total_zero t :
  ledger_ok t → getTotalUnreadCount t = 0%nat ↔ unreads t = ∅.
Proof.
  intros Hok. split.
  - intros Hz. apply map_empty. intros u.
    destruct (unreads t !! u) as [e|] eqn:He; [|done]. exfalso.
    destruct (Hok u e He) as (Hc & _ & Hne & _).
    rewrite total_unreads, (total_delete _ _ u e He) in Hz.
    destruct (UnreadEntry.messages e); [done|]. simpl in Hc. lia.
  - intros Hemp. unfold getTotalUnreadCount. rewrite Hemp. apply map_fold_empty.
Qed.

(** X7. [getTotalUnreadCount], on every reachable state: accepting a message
    adds one when its id is not yet buffered for the contact and nothing
    when it is; [markRead] takes away exactly the count of the contact's
    row; and the total is 0 exactly when the ledger has no row. *)
Theorem total_accounting (loaded : gmap string Z) (ops : list Op)
    (userId dialogId : string) (msg : TelegramMessage.t) :
  let t := (run ops (init loaded)).1 in
  getTotalUnreadCount (_addUnread userId dialogId msg t).1
    = (getTotalUnreadCount t + if inLedger userId msg t then 0 else 1)%nat
  ∧ (getTotalUnreadCount (markRead userId t).1
     + UnreadEntry.count (getUnreads userId t).1)%nat = getTotalUnreadCount t
  ∧ (getTotalUnreadCount t = 0%nat ↔ unreads t = ∅).
Proof.
  intros t. pose proof (run_ledger_ok ops loaded) as Hok. fold t in Hok.
  split_and!.
  - unfold inLedger. addUnread_cases userId dialogId msg t.
    + simpl. lia.
    + simpl. destruct (Hok userId e He) as (Hc & _).
      pose proof (total_replace (unreads t) (lastSeenIds t) userId e
                    (UnreadEntry.mk (Some dialogId) (UnreadEntry.messages e ++ [msg])
                       (length (UnreadEntry.messages e ++ [msg]))) He) as Hr.
      simpl in Hr. rewrite length_app in Hr. simpl in Hr.
      rewrite length_app. simpl. rewrite (total_unreads t). lia.
    + simpl. rewrite total_insert_fresh by done. simpl. by rewrite <- total_unreads.
  - rewrite (total_unreads (markRead userId t).1), markRead_unreads.
    unfold getUnreads. simpl.
    destruct (unreads t !! userId) as [e|] eqn:He; simpl.
    + rewrite (total_unreads t), (total_delete _ (lastSeenIds t) userId e He).
      unfold getTotalUnreadCount. simpl. lia.
    + rewrite delete_id by done. rewrite (total_unreads t).
      unfold getTotalUnreadCount. simpl. lia.
  - by apply total_zero.
Qed.

(** *** Effects of loops and runs *)

Lemma forEach_effects {A} (Q : Effect → Prop) (f : A → Action) (l : list A) :
  (∀ x t e, e ∈ (f x t).2 → Q e) → ∀ t e, e ∈ (forEach f l t).2 → Q e.
Proof.
  intros Hf. induction l as [|x l IH]; intros t e; simpl; [by intros ?%elem_of_nil|].
  unfold andThen. specialize (Hf x t). destruct (f x t) as [t1 e1].
  specialize (IH t1). destruct (forEach f l t1) as [t2 e2]. simpl in *.
  intros [Hin|Hin]%elem_of_app; [by apply Hf|by apply IH].
Qed.

Lemma addUnread_effects userId dialogId msg t e :
  e ∈ (_addUnread userId dialogId msg t).2 →
  e = EmitNewMessage userId dialogId msg
  ∨ e = EmitUserUnreadsChanged userId
          (UnreadEntry.count (getUnreads userId (_addUnread userId dialogId msg t).1).1).
Proof.
  unfold getUnreads.
  addUnread_cases userId dialogId msg t; simpl; rewrite ?lookup_insert_eq; simpl.
  - by intros ?%elem_of_nil.
  - intros [->|[->|?%elem_of_nil]%elem_of_cons]%elem_of_cons; [by left|by right|done].
  - intros [->|[->|?%elem_of_nil]%elem_of_cons]%elem_of_cons; [by left|by right|done].
Qed.

Lemma addUnread_rows userId dialogId msg t u :
  is_Some (unreads (_addUnread userId dialogId msg t).1 !! u) →
  u = userId ∨ is_Some (unreads t !! u).
Proof.
  destruct (decide (u = userId)) as [->|Hne]; [by left|]. right. revert H.
  addUnread_cases userId dialogId msg t; simpl; rewrite ?lookup_insert_ne; done.
Qed.

Lemma tracker_run_cons op ops t :
  (run (op :: ops) t).1 = (run ops (step op t).1).1
  ∧ (run (op :: ops) t).2 = (step op t).2 ++ (run ops (step op t).1).2.
Proof.
  unfold run. simpl. unfold andThen. destruct (step op t) as [t1 e1]. simpl.
  by destruct (forEach step ops t1).
Qed.

(** *** Only whitelisted contacts *)

Lemma step_whitelisted wl i t :
  (∀ u, is_Some (unreads t !! u) → isWhitelisted wl u = true) →
  (∀ u, is_Some (unreads (step (withWhitelist wl i) t).1 !! u) → isWhitelisted wl u = true)
  ∧ (∀ e u, e ∈ (step (withWhitelist wl i) t).2 → notified e = Some u →
            isWhitelisted wl u = true).
Proof.
  intros Hinv. destruct i as [ev|d fetched|u0|]; simpl.
  - unfold _handleNewMessage.
    destruct (bool_decide _ || negb (isWhitelisted wl _)) eqn:Hguard.
    { split; [done|]. by intros e u ?%elem_of_nil. }
    apply orb_false_iff in Hguard as [_ Hwl]. apply negb_false_iff in Hwl.
    split.
    + intros u [->|Hu]%addUnread_rows; [done|by apply Hinv].
    + intros e u [->| ->]%addUnread_effects [= <-]; done.
  - unfold _poll_dialog.
    destruct (negb (isWhitelisted wl _)) eqn:Hguard.
    { split; [done|]. by intros e u ?%elem_of_nil. }
    apply negb_false_iff in Hguard.
    destruct fetched as [[|m l]|];
      try (split; [done|]; by intros e u ?%elem_of_nil).
    split.
    + apply (forEach_invariant
               (λ t', ∀ u, is_Some (unreads t' !! u) → isWhitelisted wl u = true));
        [|done].
      intros x t' Ht' u [->|Hu]%addUnread_rows; [done|by apply Ht'].
    + intros e u Hin. revert u.
      eapply (forEach_effects
                (λ e, ∀ u, notified e = Some u → isWhitelisted wl u = true)); [|exact Hin].
      intros x t' e' [->| ->]%addUnread_effects u' [= <-]; done.
  - unfold markRead. destruct (unreads t !! u0) as [e0|] eqn:He0.
    + assert (isWhitelisted wl u0 = true) as Hw by (apply Hinv; by eexists).
      destruct (last (UnreadEntry.messages e0)); simpl.
      * split.
        -- intros u [_ Hu]%lookup_delete_is_Some. by apply Hinv.
        -- intros e u Hin.
           repeat (apply elem_of_cons in Hin as [->|Hin]; [by intros [= <-]|]).
           by apply elem_of_nil in Hin.
      * split.
        -- intros u [_ Hu]%lookup_delete_is_Some. by apply Hinv.
        -- intros e u Hin.
           repeat (apply elem_of_cons in Hin as [->|Hin]; [by intros [= <-]|]).
           by apply elem_of_nil in Hin.
    + split; [done|]. by intros e u ?%elem_of_nil.
  - split; [done|]. intros e u ->%list_elem_of_singleton. done.
Qed.

(** X8. With the whitelist unchanged, the tracker holds rows for whitelisted
    contacts only, and every notification it emits (new message, unread
    count changed, messages read) is about a whitelisted contact. *)
Theorem whitelisted_only (wl : list WhitelistEntry.t) (loaded : gmap string Z)
    (inputs : list Input) :
  let r := run (withWhitelist wl <$> inputs) (init loaded) in
  (∀ u, is_Some (unreads r.1 !! u) → isWhitelisted wl u = true)
  ∧ (∀ e u, e ∈ r.2 → notified e = Some u → isWhitelisted wl u = true).
Proof.
  assert (∀ t, (∀ u, is_Some (unreads t !! u) → isWhitelisted wl u = true) →
            let r := run (withWhitelist wl <$> inputs) t in
            (∀ u, is_Some (unreads r.1 !! u) → isWhitelisted wl u = true)
            ∧ (∀ e u, e ∈ r.2 → notified e = Some u → isWhitelisted wl u = true)) as Hgen.
  { induction inputs as [|i inputs IH]; intros t Ht.
    - split; [done|]. by intros e u ?%elem_of_nil.
    - destruct (step_whitelisted wl i t Ht) as [Hs He].
      destruct (IH _ Hs) as [IHs IHe]. cbv zeta. rewrite fmap_cons.
      destruct (tracker_run_cons (withWhitelist wl i) (withWhitelist wl <$> inputs) t) as [-> ->].
      split; [exact IHs|].
      intros e u [Hin|Hin]%elem_of_app; [by eapply He|by eapply IHe]. }
  apply Hgen. intros u [e He]. unfold init in He. simpl in He.
  by rewrite lookup_empty in He.
Qed.

Lemma whitelisted_only_witness :
  is_Some (unreads Samples.t7 !! "42") ∧ isWhitelisted Samples.wl42 "42" = true.
Proof.
  split; [by eexists|].
  apply (proj1 (whitelisted_only Samples.wl42 ∅ [InPush (Samples.push 7)]) "42").
  by eexists.
Defined.

(** *** The buffer only grows at its end *)

Lemma addUnread_prefix userId dialogId msg t u e :
  unreads t !! u = Some e →
  ∃ e', unreads (_addUnread userId dialogId msg t).1 !! u = Some e'
        ∧ UnreadEntry.messages e `prefix_of` UnreadEntry.messages e'.
Proof.
  intros Hu. addUnread_cases userId dialogId msg t; simpl.
  - by exists e.
  - destruct (decide (userId = u)) as [->|Hne].
    + rewrite lookup_insert_eq. eexists. split; [done|]. simpl.
      rewrite Hu in He. injection He as <-. by apply prefix_app_r.
    + rewrite lookup_insert_ne by done. by exists e.
  - destruct (decide (userId = u)) as [->|Hne]; [congruence|].
    rewrite lookup_insert_ne by done. by exists e.
Qed.

Lemma forEach_addUnread_prefix userId dialogId (l : list TelegramMessage.t) t u e :
  unreads t !! u = Some e →
  ∃ e', unreads (forEach (_addUnread userId dialogId) l t).1 !! u = Some e'
        ∧ UnreadEntry.messages e `prefix_of` UnreadEntry.messages e'.
Proof.
  intros Hu.
  apply (forEach_invariant
           (λ t', ∃ e', unreads t' !! u = Some e'
                        ∧ UnreadEntry.messages e `prefix_of` UnreadEntry.messages e')).
  - intros x t' (e1 & H1 & Hp1).
    destruct (addUnread_prefix userId dialogId x t' u e1 H1) as (e2 & H2 & Hp2).
    exists e2. split; [done|]. by etrans.
  - by exists e.
Qed.

(** X9. The buffer of a contact is append-only: across any operation other
    than [markRead] of that contact, the row stays and the messages it held
    are a prefix, in the same order, of the messages it holds afterwards. *)
Theorem ledger_append_only (op : Op) (t : MessageTracker) (userId : string)
    (entry : UnreadEntry.t) :
  unreads t !! userId = Some entry →
  op ≠ OpMarkRead userId →
  ∃ entry', unreads (step op t).1 !! userId = Some entry'
            ∧ UnreadEntry.messages entry `prefix_of` UnreadEntry.messages entry'.
Proof.
  intros Hu Hop. destruct op as [wl ev|wl d fetched|u0|]; simpl.
  - unfold _handleNewMessage. destruct (_ || _); [by exists entry|].
    by apply addUnread_prefix.
  - unfold _poll_dialog. destruct (negb _); [by exists entry|].
    destruct fetched as [[|m l]|]; try by exists entry.
    by apply forEach_addUnread_prefix.
  - exists entry. split; [|done]. rewrite markRead_unreads.
    rewrite lookup_delete_ne; [done|]. congruence.
  - by exists entry.
Qed.

Lemma ledger_append_only_witness :
  ∃ entry',
    unreads (step (OpPollDialog Samples.wl42 Samples.d1 (Some [Samples.msg 9]))
               (mkTracker (unreads Samples.t7) {["d1" := 3]})).1 !! "42" = Some entry'
    ∧ [Samples.msg 7] `prefix_of` UnreadEntry.messages entry'.
Proof.
  apply (ledger_append_only
           (OpPollDialog Samples.wl42 Samples.d1 (Some [Samples.msg 9]))
           (mkTracker (unreads Samples.t7) {["d1" := 3]}) "42"
           (UnreadEntry.mk (Some "d1") [Samples.msg 7] 1)).
  - reflexivity.
  - discriminate.
Defined.

(** *** Marking read twice *)

(** X10. [markRead] touches the row of its contact only, and a second
    [markRead] of the same contact changes nothing, writes nothing and
    emits nothing. *)
Theorem markRead_twice (userId : string) (t : MessageTracker) :
  markRead userId (markRead userId t).1 = ((markRead userId t).1, [])
  ∧ (∀ u, u ≠ userId → unreads (markRead userId t).1 !! u = unreads t !! u).
Proof.
  split.
  - unfold markRead at 1. by rewrite markRead_unreads, lookup_delete_eq.
  - intros u Hne. rewrite markRead_unreads. by apply lookup_delete_ne.
Qed.

(** *** The watermark file *)

Lemma persisted_app disk e1 e2 :
  persisted disk (e1 ++ e2) = persisted (persisted disk e1) e2.
Proof. apply foldl_app. Qed.

Lemma persisted_no_write disk (effects : list Effect) :
  (∀ e, e ∈ effects → ∀ content, e ≠ WriteLastSeen content) →
  persisted disk effects = disk.
Proof.
  induction effects as [|e effects IH]; intros Hno; [done|].
  unfold persisted in *. simpl.
  assert (match e with WriteLastSeen content => content | _ => disk end = disk) as ->.
  { destruct e; try done. exfalso. eapply Hno; [left|done]. }
  apply IH. intros e' He'. apply Hno. by right.
Qed.

Lemma addUnread_no_write userId dialogId msg t e :
  e ∈ (_addUnread userId dialogId msg t).2 → ∀ content, e ≠ WriteLastSeen content.
Proof. by intros [->| ->]%addUnread_effects. Qed.

Lemma step_persisted op t :
  persisted (lastSeenIds t) (step op t).2 = lastSeenIds (step op t).1.
Proof.
  destruct op as [wl ev|wl d fetched|u0|].
  - rewrite step_lastSeenIds. apply persisted_no_write. simpl.
    unfold _handleNewMessage. destruct (_ || _); [by intros e ?%elem_of_nil|].
    intros e. apply addUnread_no_write.
  - rewrite step_lastSeenIds. apply persisted_no_write. simpl.
    unfold _poll_dialog. destruct (negb _); [by intros e ?%elem_of_nil|].
    destruct fetched as [[|m l]|]; try by intros e ?%elem_of_nil.
    intros e. apply (forEach_effects (λ e, ∀ content, e ≠ WriteLastSeen content)).
    intros x t' e'. apply addUnread_no_write.
  - simpl. unfold markRead. destruct (unreads t !! u0) as [e0|]; [|done].
    by destruct (last (UnreadEntry.messages e0)).
  - done.
Qed.

(** X11. The watermark file follows the map in memory: after any sequence of
    operations from start-up, the content of the last write of
    last-seen.json (the loaded content if nothing was written) is the
    tracker's watermark map. *)
Theorem watermark_file_in_sync (loaded : gmap string Z) (ops : list Op) :
  persisted loaded (run ops (init loaded)).2 = lastSeenIds (run ops (init loaded)).1.
Proof.
  assert (∀ t, persisted (lastSeenIds t) (run ops t).2 = lastSeenIds (run ops t).1) as Hgen.
  { induction ops as [|op ops IH]; intros t; [done|].
    destruct (tracker_run_cons op ops t) as [-> ->].
    by rewrite persisted_app, step_persisted. }
  apply (Hgen (init loaded)).
Qed.

(** *** The counts listeners receive *)

Lemma countsFor_app u e1 e2 : countsFor u (e1 ++ e2) = countsFor u e1 ++ countsFor u e2.
Proof. apply omap_app. Qed.

Lemma addUnread_counts userId dialogId msg t u c :
  c ∈ countsFor u (_addUnread userId dialogId msg t).2 →
  u = userId
  ∧ c = UnreadEntry.count (getUnreads u (_addUnread userId dialogId msg t).1).1.
Proof.
  unfold countsFor, getUnreads.
  addUnread_cases userId dialogId msg t; simpl; [by intros ?%elem_of_nil| |];
    (destruct (decide (userId = u)) as [->|Hne];
     [rewrite bool_decide_eq_true_2 by done|rewrite bool_decide_eq_false_2 by done];
     simpl; [|by intros ?%elem_of_nil]);
    intros ->%list_elem_of_singleton; by rewrite lookup_insert_eq.
Qed.

Lemma addUnread_silent userId dialogId msg t :
  countsFor userId (_addUnread userId dialogId msg t).2 = [] →
  (_addUnread userId dialogId msg t).1 = t.
Proof.
  unfold countsFor.
  addUnread_cases userId dialogId msg t; simpl; [done| |];
    by rewrite bool_decide_eq_true_2.
Qed.

Lemma forEach_addUnread_silent userId dialogId (l : list TelegramMessage.t) t :
  countsFor userId (forEach (_addUnread userId dialogId) l t).2 = [] →
  (forEach (_addUnread userId dialogId) l t).1 = t.
Proof.
  revert t. induction l as [|x l IH]; intros t; simpl; [done|].
  unfold andThen. pose proof (addUnread_silent userId dialogId x t) as H1.
  destruct (_addUnread userId dialogId x t) as [t1 e1].
  specialize (IH t1). destruct (forEach (_addUnread userId dialogId) l t1) as [t2 e2].
  simpl in *. rewrite countsFor_app. intros [Ha Hb]%app_eq_nil.
  rewrite IH by done. by apply H1.
Qed.

Lemma forEach_addUnread_counts userId dialogId (l : list TelegramMessage.t) t u c :
  last (countsFor u (forEach (_addUnread userId dialogId) l t).2) = Some c →
  c = UnreadEntry.count (getUnreads u (forEach (_addUnread userId dialogId) l t).1).1.
Proof.
  revert t. induction l as [|x l IH]; intros t; simpl; [done|].
  unfold andThen.
  pose proof (addUnread_counts userId dialogId x t u) as H1.
  destruct (_addUnread userId dialogId x t) as [t1 e1].
  specialize (IH t1).
  pose proof (forEach_addUnread_silent userId dialogId l t1) as Hs.
  destruct (forEach (_addUnread userId dialogId) l t1) as [t2 e2].
  simpl in *. rewrite countsFor_app.
  intros [H2|[H2 Hl]]%last_app_Some; [by apply IH|].
  apply last_None in H2. apply last_Some_elem_of in Hl.
  destruct (H1 c Hl) as [-> ->]. by rewrite Hs.
Qed.

(** X12. The unread count a listener last received for a contact during an
    operation is the count of the contact's row after the operation
    (0 when the row is gone): listeners end every operation up to date. *)
Theorem unread_count_delivered (op : Op) (t : MessageTracker) (userId : string) (c : nat) :
  last (countsFor userId (step op t).2) = Some c →
  c = UnreadEntry.count (getUnreads userId (step op t).1).1.
Proof.
  destruct op as [wl ev|wl d fetched|u0|]; simpl.
  - unfold _handleNewMessage. destruct (_ || _); [done|].
    intros Hl%last_Some_elem_of. by apply addUnread_counts in Hl as [_ ->].
  - unfold _poll_dialog. destruct (negb _); [done|].
    destruct fetched as [[|m l]|]; try done. apply forEach_addUnread_counts.
  - unfold markRead, getUnreads, countsFor.
    destruct (unreads t !! u0) as [e0|] eqn:He0; [|done].
    destruct (last (UnreadEntry.messages e0)); simpl;
      (destruct (decide (u0 = userId)) as [->|Hne];
       [rewrite bool_decide_eq_true_2 by done|rewrite bool_decide_eq_false_2 by done];
       simpl; [|done]);
      intros [= <-]; by rewrite lookup_delete_eq.
  - done.
Qed.

Lemma unread_count_delivered_witness :
  UnreadEntry.count
    (getUnreads "42"
       (step (OpPollDialog Samples.wl42 Samples.d1 (Some [Samples.msg 8; Samples.msg 9]))
          (mkTracker (unreads Samples.t7) {["d1" := 3]})).1).1 = 3%nat.
Proof.
  symmetry.
  apply (unread_count_delivered
           (OpPollDialog Samples.wl42 Samples.d1 (Some [Samples.msg 8; Samples.msg 9]))
           (mkTracker (unreads Samples.t7) {["d1" := 3]}) "42" 3%nat).
  reflexivity.
Defined.

Lemma markRead_twice_witness :
  unreads (markRead "7" Samples.t7).1 !! "42" = unreads Samples.t7 !! "42".
Proof.
  apply (proj2 (markRead_twice "7" Samples.t7) "42"). discriminate.
Defined.

End TrackerExtFacts.

(** ** More properties of the connection supervisor *)

Module DaemonExtFacts.

Import Daemon DaemonExt.

Lemma daemon_run_cons op ops c :
  (run (op :: ops) c).1 = (run ops (step op c).1).1
  ∧ (run (op :: ops) c).2 = (step op c).2 ++ (run ops (step op c).1).2.
Proof.
  unfold run. simpl. unfold andThen. destruct (step op c) as [c1 e1]. simpl.
  by destruct (forEach step ops c1).
Qed.

(** *** The shape of the backoff *)

(** X13. The reconnect delay never exceeds the cap and never shrinks as the
    attempts grow. With the cap of 30000 ms it is at least 1000 ms, doubles
    from 1000 ms over the first five attempts (1000, 2000, 4000, 8000,
    16000) and is 30000 ms from the sixth on. *)
Theorem backoff_shape (attempts : nat) (maxDelay : Z) :
  backoff attempts maxDelay ≤ maxDelay
  ∧ (∀ k : nat, (attempts ≤ k)%nat → backoff attempts maxDelay ≤ backoff k maxDelay)
  ∧ 1000 ≤ backoff attempts 30000
  ∧ ((attempts < 5)%nat → backoff attempts 30000 = 1000 * 2 ^ Z.of_nat attempts)
  ∧ ((5 ≤ attempts)%nat → backoff attempts 30000 = 30000).
Proof.
  unfold backoff. split_and!.
  - lia.
  - intros k Hk.
    assert (2 ^ Z.of_nat attempts ≤ 2 ^ Z.of_nat k) by (apply Z.pow_le_mono_r; lia).
    lia.
  - assert (0 < 2 ^ Z.of_nat attempts) by (apply Z.pow_pos_nonneg; lia). lia.
  - intros Hlt.
    assert (2 ^ Z.of_nat attempts ≤ 2 ^ 4) by (apply Z.pow_le_mono_r; lia).
    change (2 ^ 4) with 16 in *. lia.
  - intros Hge.
    assert (2 ^ 5 ≤ 2 ^ Z.of_nat attempts) by (apply Z.pow_le_mono_r; lia).
    change (2 ^ 5) with 32 in *. lia.
Qed.

Lemma backoff_shape_witness :
  backoff 3 30000 = 8000 ∧ backoff 9 30000 = 30000.
Proof.
  split.
  - rewrite (proj1 (proj2 (proj2 (proj2 (backoff_shape 3 30000))))); [reflexivity|lia].
  - apply (proj2 (proj2 (proj2 (proj2 (backoff_shape 9 30000))))). lia.
Defined.

(** *** One reconnect timer, one health interval *)

Lemma foldl_timeouts_app armed e1 e2 :
  foldl trackTimeouts armed (e1 ++ e2) = foldl trackTimeouts (foldl trackTimeouts armed e1) e2.
Proof. apply foldl_app. Qed.

Lemma step_timeouts op c armed :
  (armed = [] ∨ ∃ d, armed = [d] ∧ reconnectTimer c = Some d) →
  let armed' := foldl trackTimeouts armed (step op c).2 in
  armed' = [] ∨ ∃ d, armed' = [d] ∧ reconnectTimer (step op c).1 = Some d.
Proof.
  intros Hinv.
  destruct c as [cn w a mx rt ht].
  destruct op as [ok|wr ok|[|]| |data [| |[ty|]]| | | |i| |];
    unfold step, stop, startHealthCheck, stopHealthCheck, onClose, connectWS,
      _scheduleReconnect, getHealth, wrapper, onOpen, onMessage, onError, andThen;
    cbn [reconnectTimer healthCheckTimer ws connected reconnectAttempts maxReconnectDelay];
    destruct Hinv as [->|(d & -> & Hrt)]; cbn [reconnectTimer] in *; subst;
    destruct w; try destruct ht; try destruct rt;
    try destruct (bool_decide (ty = "")); try destruct (bool_decide (ty = "error"));
    cbn; rewrite ?bool_decide_eq_true_2 by done; eauto.
Qed.

Lemma step_intervals op c set :
  (set = [] ∨ ∃ i, set = [i] ∧ healthCheckTimer c = Some i) →
  let set' := foldl trackIntervals set (step op c).2 in
  set' = [] ∨ ∃ i, set' = [i] ∧ healthCheckTimer (step op c).1 = Some i.
Proof.
  intros Hinv.
  destruct c as [cn w a mx rt ht].
  destruct op as [ok|wr ok|[|]| |data [| |[ty|]]| | | |i| |];
    unfold step, stop, startHealthCheck, stopHealthCheck, onClose, connectWS,
      _scheduleReconnect, getHealth, wrapper, onOpen, onMessage, onError, andThen;
    cbn [reconnectTimer healthCheckTimer ws connected reconnectAttempts maxReconnectDelay];
    destruct Hinv as [->|(d & -> & Hht)]; cbn [healthCheckTimer] in *; subst;
    destruct w; try destruct ht; try destruct rt;
    try destruct (bool_decide (ty = "")); try destruct (bool_decide (ty = "error"));
    cbn; rewrite ?bool_decide_eq_true_2 by done; eauto.
Qed.

Lemma run_timeouts ops c armed :
  (armed = [] ∨ ∃ d, armed = [d] ∧ reconnectTimer c = Some d) →
  let armed' := foldl trackTimeouts armed (run ops c).2 in
  armed' = [] ∨ ∃ d, armed' = [d] ∧ reconnectTimer (run ops c).1 = Some d.
Proof.
  revert c armed. induction ops as [|op ops IH]; intros c armed Hinv; [done|].
  cbv zeta. destruct (daemon_run_cons op ops c) as [-> ->].
  rewrite foldl_timeouts_app. apply IH. by apply step_timeouts.
Qed.

Lemma run_intervals ops c set :
  (set = [] ∨ ∃ i, set = [i] ∧ healthCheckTimer c = Some i) →
  let set' := foldl trackIntervals set (run ops c).2 in
  set' = [] ∨ ∃ i, set' = [i] ∧ healthCheckTimer (run ops c).1 = Some i.
Proof.
  revert c set. induction ops as [|op ops IH]; intros c set Hinv; [done|].
  cbv zeta. destruct (daemon_run_cons op ops c) as [-> ->].
  rewrite foldl_app. apply IH. by apply step_intervals.
Qed.

(** X14. The client never holds two reconnect timers, nor two health
    intervals: after any sequence of operations from start-up, at most one
    timer armed by [_scheduleReconnect] has not been cleared, and at most
    one interval set by [startHealthCheck], each being the one the client's
    field holds. *)
Theorem one_timer (ops : list Op) :
  let armed := foldl trackTimeouts [] (run ops init).2 in
  let set := foldl trackIntervals [] (run ops init).2 in
  (length armed ≤ 1)%nat
  ∧ (∀ d, d ∈ armed → reconnectTimer (run ops init).1 = Some d)
  ∧ (length set ≤ 1)%nat
  ∧ (∀ i, i ∈ set → healthCheckTimer (run ops init).1 = Some i).
Proof.
  intros armed set.
  destruct (run_timeouts ops init [] (or_introl eq_refl)) as [Ha|(d & Ha & Hd)];
    destruct (run_intervals ops init [] (or_introl eq_refl)) as [Hs|(i & Hs & Hi')];
    fold armed in Ha; fold set in Hs; rewrite Ha, Hs; simpl;
    split_and!; try lia;
    try (by intros ? ?%elem_of_nil);
    by intros ? ->%list_elem_of_singleton.
Qed.

(** *** The flag as listeners know it *)

Lemma lastFlag_app seen e1 e2 :
  lastFlag seen (e1 ++ e2) = lastFlag (lastFlag seen e1) e2.
Proof. apply foldl_app. Qed.

Lemma step_lastFlag op c :
  lastFlag (Some (connected c)) (step op c).2 = Some (connected (step op c).1).
Proof.
  destruct c as [cn w a mx rt ht].
  destruct op as [ok|wr ok|[|]| |data [| |[ty|]]| | | |i| |];
    unfold step, stop, startHealthCheck, stopHealthCheck, onClose, connectWS,
      _scheduleReconnect, getHealth, wrapper, onOpen, onMessage, onError, andThen;
    cbn [reconnectTimer healthCheckTimer ws connected reconnectAttempts maxReconnectDelay];
    destruct w; try destruct ht; try destruct rt;
    try destruct (bool_decide (ty = "")); try destruct (bool_decide (ty = "error")); done.
Qed.

Lemma run_lastFlag ops c :
  lastFlag (Some (connected c)) (run ops c).2 = Some (connected (run ops c).1).
Proof.
  revert c. induction ops as [|op ops IH]; intros c; [done|].
  destruct (daemon_run_cons op ops c) as [-> ->].
  by rewrite lastFlag_app, step_lastFlag.
Qed.

(** The last notification against the last flag: when the last
    notification is a flag, it is the last flag; when there was none,
    there was no flag. *)
Lemma lastConnectionChanged_flag effects seenN seenB :
  (seenN = None → seenB = None) →
  (∀ b, seenN = Some (Flag b) → seenB = Some b) →
  (lastConnectionChanged seenN effects = None → lastFlag seenB effects = None)
  ∧ (∀ b, lastConnectionChanged seenN effects = Some (Flag b) →
          lastFlag seenB effects = Some b).
Proof.
  revert seenN seenB. induction effects as [|e effects IH]; intros seenN seenB Hn Hf;
    [done|].
  unfold lastConnectionChanged, lastFlag in *. simpl. apply IH.
  - destruct e; simpl; try done. by destruct (bool_decide _).
  - intros b. destruct e; simpl; try apply Hf.
    + by intros [= ->].
    + destruct (bool_decide _); [done|apply Hf].
Qed.

Lemma lastFlag_seed seen effects :
  lastFlag seen effects
  = match lastFlag None effects with Some b => Some b | None => seen end.
Proof.
  revert seen. induction effects as [|e effects IH]; intros seen; [done|].
  unfold lastFlag in *. simpl.
  rewrite IH. rewrite (IH (match e with EmitConnectionChanged b => Some b | _ => None end)).
  destruct (foldl _ None effects); [done|]. by destruct e.
Qed.

Lemma step_no_relay op c e :
  relaysConnectionChanged op = false → e ∈ (step op c).2 →
  ∀ frame, notification e ≠ Some (Relayed frame).
Proof.
  intros Hrelay Hin frame. revert Hin.
  destruct c as [cn w a mx rt ht].
  destruct op as [ok|wr ok|[|]| |data [| |[ty|]]| | | |i| |];
    unfold step, stop, startHealthCheck, stopHealthCheck, onClose, connectWS,
      _scheduleReconnect, getHealth, wrapper, onOpen, onMessage, onError, andThen;
    cbn [reconnectTimer healthCheckTimer ws connected reconnectAttempts maxReconnectDelay];
    destruct w; try destruct ht; try destruct rt;
    try destruct (bool_decide (ty = "")); try destruct (bool_decide (ty = "error"));
    cbn; intros Hin;
    repeat (apply elem_of_cons in Hin as [->|Hin]; [try done|]);
    try (by apply elem_of_nil in Hin);
    simpl in *; by rewrite Hrelay.
Qed.

Lemma lastConnectionChanged_no_relay effects seen :
  (∀ e, e ∈ effects → ∀ frame, notification e ≠ Some (Relayed frame)) →
  (∀ frame, seen ≠ Some (Relayed frame)) →
  ∀ frame, lastConnectionChanged seen effects ≠ Some (Relayed frame).
Proof.
  revert seen. induction effects as [|e effects IH]; intros seen He Hs; [done|].
  unfold lastConnectionChanged in *. simpl. apply IH.
  - intros e' He'. apply He. by right.
  - intros frame. destruct (notification e) as [n|] eqn:Hn; [|apply Hs].
    rewrite <- Hn. apply He. left.
Qed.

Lemma run_no_relay ops c e :
  forallb (λ op, negb (relaysConnectionChanged op)) ops = true →
  e ∈ (run ops c).2 → ∀ frame, notification e ≠ Some (Relayed frame).
Proof.
  revert c. induction ops as [|op ops IH]; intros c Hops; [by intros ?%elem_of_nil|].
  simpl in Hops. apply andb_true_iff in Hops as [Hop Hops]. apply negb_true_iff in Hop.
  destruct (daemon_run_cons op ops c) as [_ ->].
  intros [Hin|Hin]%elem_of_app; [by eapply step_no_relay|by eapply IH].
Qed.

(** X15. What a listener of connection-changed knows of the flag, after
    any sequence of operations from start-up: if it was never notified the
    flag is false, and if its last notification carried a flag, the flag has
    that value. The last notification is a frame instead only when a push
    frame of type 'connection-changed' arrived: in a run without such a
    frame the last notification always carries the current flag. *)
Theorem connected_is_last_notified (ops : list Op) :
  let heard := lastConnectionChanged None (run ops init).2 in
  (heard = None → connected (run ops init).1 = false)
  ∧ (∀ b, heard = Some (Flag b) → connected (run ops init).1 = b)
  ∧ (forallb (λ op, negb (relaysConnectionChanged op)) ops = true →
       heard = None ∨ heard = Some (Flag (connected (run ops init).1))).
Proof.
  intros heard.
  pose proof (run_lastFlag ops init) as Hrun. rewrite lastFlag_seed in Hrun.
  destruct (lastConnectionChanged_flag (run ops init).2 None None) as [Hnone Hflag];
    [done|done|]. fold heard in Hnone, Hflag.
  assert (heard = None → connected (run ops init).1 = false) as H1.
  { intros Hl. rewrite (Hnone Hl) in Hrun. simpl in Hrun. congruence. }
  assert (∀ b, heard = Some (Flag b) → connected (run ops init).1 = b) as H2.
  { intros b Hl. rewrite (Hflag b Hl) in Hrun. congruence. }
  split_and!; [done|done|].
  intros Hops.
  pose proof (lastConnectionChanged_no_relay (run ops init).2 None
                (λ e He, run_no_relay ops init e Hops He)) as Hno.
  fold heard in Hno.
  destruct heard as [[b|frame]|] eqn:Hl; [right|by destruct (Hno ltac:(done) frame)|by left].
  by rewrite (H2 b).
Qed.

Lemma connected_is_last_notified_witness :
  lastConnectionChanged None (run [OpOpen; OpError; OpGetHealth false] init).2 = None
  ∨ lastConnectionChanged None (run [OpOpen; OpError; OpGetHealth false] init).2
    = Some (Flag (connected (run [OpOpen; OpError; OpGetHealth false] init).1)).
Proof.
  apply (proj2 (proj2 (connected_is_last_notified [OpOpen; OpError; OpGetHealth false]))).
  reflexivity.
Defined.

(** *** The avatar file cache *)

Lemma photo_fresh userId now written response (files : gmap string Z) mtimeMs :
  files !! userId = Some mtimeMs → now - mtimeMs < DAY →
  getProfilePhoto userId now written response files = (Some userId, files, []).
Proof.
  intros Hm Hfresh. unfold getProfilePhoto. rewrite Hm.
  by destruct (Z.ltb_spec (now - mtimeMs) DAY); [|lia].
Qed.

Lemma photo_fetch userId now written response (files : gmap string Z) :
  (∀ mtimeMs, files !! userId = Some mtimeMs → DAY ≤ now - mtimeMs) →
  getProfilePhoto userId now written response files =
  match response with
  | Buffer n =>
      if 100 <? n
      then (Some userId, <[userId := written]> files, [PhotoRequest userId; WriteFile userId])
      else (None, files, [PhotoRequest userId])
  | Rejected | NotABuffer => (None, files, [PhotoRequest userId])
  end.
Proof.
  intros Hstale. unfold getProfilePhoto.
  destruct (files !! userId) as [m|]; [|done].
  specialize (Hstale m eq_refl).
  by destruct (Z.ltb_spec (now - m) DAY); [lia|].
Qed.

(** X16. [getProfilePhoto]: a path is returned only for a file that exists
    afterwards; the request is skipped exactly when the cached file is
    younger than 24 hours, and then the path is returned and nothing
    changes; the file is written exactly when a request was made and
    answered by a buffer of more than 100 bytes, and otherwise the files are
    as before; only the file of the asked user can change; and after a call
    that wrote the file, a call within 24 hours of the write is served from
    the cache without a request, whatever the backend would answer. *)
Theorem photo_cache (userId : string) (now written : Z) (response : PhotoResponse)
    (files : gmap string Z) :
  let r := getProfilePhoto userId now written response files in
  let fresh := ∃ mtimeMs, files !! userId = Some mtimeMs ∧ now - mtimeMs < DAY in
  (is_Some r.1.1 → is_Some (r.1.2 !! userId))
  ∧ (r.2 = [] ↔ fresh)
  ∧ (fresh → r = (Some userId, files, []))
  ∧ (WriteFile userId ∈ r.2 ↔ ¬ fresh ∧ ∃ n, response = Buffer n ∧ 100 < n)
  ∧ (WriteFile userId ∉ r.2 → r.1.2 = files)
  ∧ (∀ u, u ≠ userId → r.1.2 !! u = files !! u)
  ∧ (WriteFile userId ∈ r.2 →
       ∀ now' written' response', now' - written < DAY →
         getProfilePhoto userId now' written' response' r.1.2 = (Some userId, r.1.2, [])).
Proof.
  intros r fresh.
  assert (fresh ∨ ∀ mtimeMs, files !! userId = Some mtimeMs → DAY ≤ now - mtimeMs)
    as [(m & Hm & Hfresh)|Hstale].
  { unfold fresh. destruct (files !! userId) as [m|]; [|by right].
    destruct (Z.lt_ge_cases (now - m) DAY); [left; by exists m|right].
    by intros ? [= <-]. }
  - assert (r = (Some userId, files, [])) as -> by by eapply photo_fresh.
    assert fresh by by exists m.
    simpl. split_and!; try done.
    + split; [by intros ?%elem_of_nil|by intros [? _]].
    + by intros ?%elem_of_nil.
  - assert (¬ fresh) as Hnf.
    { intros (m & Hm & Hlt). specialize (Hstale m Hm). lia. }
    unfold r. rewrite photo_fetch by done.
    assert (∀ e : FsEffect, e ∈ [PhotoRequest userId] → e ≠ WriteFile userId) as Hreq.
    { by intros e ->%list_elem_of_singleton. }
    destruct response as [| |n]; [| |destruct (Z.ltb_spec 100 n) as [Hn|Hn]]; simpl.
    + split_and!; try done;
        [split; [intros Hin; by apply Hreq in Hin|by intros [_ (n & [=] & _)]]
        |intros Hin; by apply Hreq in Hin].
    + split_and!; try done;
        [split; [intros Hin; by apply Hreq in Hin|by intros [_ (n & [=] & _)]]
        |intros Hin; by apply Hreq in Hin].
    + split_and!; try done.
      * intros _. rewrite lookup_insert_eq. by eexists.
      * split; [intros _; split; [done|by exists n]|intros _; right; left].
      * intros Hno. exfalso. apply Hno. right. left.
      * intros u Hne. by apply lookup_insert_ne.
      * intros _ now' written' response' Hlt.
        by apply (photo_fresh _ _ _ _ _ written); [apply lookup_insert_eq|].
    + split_and!; try done;
        [split; [intros Hin; by apply Hreq in Hin|intros [_ (n' & [= <-] & ?)]; lia]
        |intros Hin; by apply Hreq in Hin].
Qed.

Lemma photo_cache_witness :
  getProfilePhoto "42" 5000 5001 Rejected
    (getProfilePhoto "42" 1000 1200 (Buffer 2048) ∅).1.2
  = (Some "42", (getProfilePhoto "42" 1000 1200 (Buffer 2048) ∅).1.2, []).
Proof.
  apply (proj2 (proj2 (proj2 (proj2 (proj2 (proj2
           (photo_cache "42" 1000 1200 (Buffer 2048) ∅))))))).
  - right. left.
  - reflexivity.
Defined.

Lemma one_timer_witness :
  reconnectTimer (run [OpClose; OpConnectWS false] init).1 = Some 2000.
Proof.
  apply (proj1 (proj2 (one_timer [OpClose; OpConnectWS false])) 2000).
  vm_compute. left.
Defined.

End DaemonExtFacts.

(** ** More properties of the bubble window pool *)

Module BubblesExtFacts.

Import Bubbles BubblesExt.

Lemma pool_run_cons op ops m :
  (run (op :: ops) m).1 = (run ops (step op m).1).1
  ∧ (run (op :: ops) m).2 = (step op m).2 ++ (run ops (step op m).1).2.
Proof.
  unfold run. simpl. unfold andThen. destruct (step op m) as [m1 e1]. simpl.
  by destruct (forEach step ops m1).
Qed.

(** *** The map of windows *)

Lemma get_None userId (l : list (string * BrowserWindow)) :
  get userId l = None ↔ userId ∉ l.*1.
Proof.
  induction l as [|[u w] l IH]; simpl.
  - split; [intros _; apply not_elem_of_nil|done].
  - rewrite not_elem_of_cons. destruct (decide (u = userId)) as [->|Hne].
    + rewrite bool_decide_eq_true_2 by done. split; [done|by intros [? _]].
    + rewrite bool_decide_eq_false_2 by done. rewrite IH. split; [|by intros [_ ?]].
      intros ?. split; [congruence|done].
Qed.

Lemma get_is_Some userId (l : list (string * BrowserWindow)) :
  is_Some (get userId l) ↔ userId ∈ l.*1.
Proof.
  destruct (get userId l) as [w|] eqn:Hg.
  - split; [intros _|by eexists].
    destruct (decide (userId ∈ l.*1)) as [|Hn]; [done|].
    apply get_None in Hn. congruence.
  - split; [by intros [? ?]|]. intros Hin. by apply get_None in Hg.
Qed.

Lemma get_Some_elem userId (l : list (string * BrowserWindow)) w :
  get userId l = Some w → (userId, w) ∈ l.
Proof.
  induction l as [|[u w'] l IH]; simpl; [done|].
  destruct (decide (u = userId)) as [->|Hne].
  - rewrite bool_decide_eq_true_2 by done. intros [= ->]. left.
  - rewrite bool_decide_eq_false_2 by done. intros ?. right. by apply IH.
Qed.

Lemma get_delete_ne userId u (l : list (string * BrowserWindow)) :
  u ≠ userId → get u (delete userId l) = get u l.
Proof.
  intros Hne. induction l as [|[u' w] l IH]; simpl; [done|].
  destruct (decide (u' = userId)) as [->|Hne'].
  - rewrite bool_decide_eq_true_2 by done.
    by rewrite (bool_decide_eq_false_2 (userId = u)) by done.
  - rewrite (bool_decide_eq_false_2 (u' = userId)) by done. simpl. by rewrite IH.
Qed.

Lemma keys_delete userId u (l : list (string * BrowserWindow)) :
  u ∈ (delete userId l).*1 → u ∈ l.*1.
Proof.
  induction l as [|[u' w] l IH]; simpl; [done|].
  destruct (bool_decide (u' = userId)); simpl.
  - intros ?. by right.
  - intros [->|?]%elem_of_cons; [left|right; by apply IH].
Qed.

Lemma NoDup_delete userId (l : list (string * BrowserWindow)) :
  NoDup l.*1 → NoDup (delete userId l).*1.
Proof.
  induction l as [|[u w] l IH]; simpl; [done|].
  intros [Hu Hnd]%NoDup_cons. destruct (bool_decide (u = userId)); simpl; [done|].
  apply NoDup_cons. split; [|by apply IH]. intros Hin. apply Hu. by eapply keys_delete.
Qed.

Lemma get_delete_eq userId (l : list (string * BrowserWindow)) :
  NoDup l.*1 → get userId (delete userId l) = None.
Proof.
  induction l as [|[u w] l IH]; simpl; [done|].
  intros [Hu Hnd]%NoDup_cons. destruct (decide (u = userId)) as [->|Hne].
  - rewrite bool_decide_eq_true_2 by done. by apply get_None.
  - rewrite bool_decide_eq_false_2 by done. simpl.
    rewrite bool_decide_eq_false_2 by done. by apply IH.
Qed.

Lemma get_app userId (l1 l2 : list (string * BrowserWindow)) :
  get userId (l1 ++ l2) = match get userId l1 with
                          | Some w => Some w
                          | None => get userId l2
                          end.
Proof.
  induction l1 as [|[u w] l1 IH]; simpl; [done|].
  by destruct (bool_decide (u = userId)).
Qed.

Lemma reposition_keys xEdge index (l : list (string * BrowserWindow)) :
  (reposition xEdge index l).1.*1 = l.*1.
Proof.
  revert index. induction l as [|[u w] l IH]; intros index; simpl; [done|].
  destruct (destroyed w).
  - specialize (IH index). destruct (reposition xEdge index l). simpl in *. by f_equal.
  - specialize (IH (S index)). destruct (reposition xEdge (S index) l). simpl in *.
    by f_equal.
Qed.

Lemma destroyedOutside_keys userId m :
  contacts (destroyedOutside userId m).1 = contacts m.
Proof.
  unfold contacts, destroyedOutside. simpl.
  rewrite <- list_fmap_compose. apply list_fmap_ext.
  intros i [u w] _. simpl. by destruct (bool_decide (u = userId)).
Qed.

(** The contacts of the pool after an operation: those before, and for
    an unread notification with a positive count possibly its contact. *)
Lemma step_contacts op m u :
  u ∈ contacts (step op m).1 →
  u ∈ contacts m
  ∨ ∃ s w c, op = OpUnreadsChanged s w u c ∧ (0 < c)%nat.
Proof.
  unfold contacts. destruct op as [s w u0 c|u0|u0|u0| | | |s w|]; simpl.
  - unfold handleUnreadsChanged. destruct (bool_decide (0 < c)%nat) eqn:Hc.
    + apply bool_decide_eq_true in Hc. unfold createBubble, _updateBubble.
      destruct (bool_decide (is_Some (get u0 (bubbles m)))).
      { destruct (get u0 (bubbles m)) as [b|]; [destruct (destroyed b)|]; by left. }
      destruct (bool_decide (MAX_BUBBLES ≤ length (bubbles m))%nat); [by left|].
      simpl. rewrite fmap_app. simpl.
      intros [?| ->%list_elem_of_singleton]%elem_of_app; [by left|right].
      by exists s, w, c.
    + simpl. intros ?%keys_delete. by left.
  - intros ?%keys_delete. by left.
  - intros ?%keys_delete. by left.
  - intros Hin. left. pose proof (destroyedOutside_keys u0 m) as Hk.
    unfold contacts in Hk. simpl in Hk. by rewrite <- Hk.
  - by left.
  - by left.
  - unfold toggleVisibility. destruct (visible m); by left.
  - unfold repositionAll.
    pose proof (reposition_keys (edgeX s w) 0 (bubbles m)) as Hk.
    destruct (reposition (edgeX s w) 0 (bubbles m)). simpl in *. rewrite Hk. by left.
  - by intros ?%elem_of_nil.
Qed.

Lemma pool_step_unique op m : NoDup (contacts m) → NoDup (contacts (step op m).1).
Proof.
  unfold contacts. intros Hnd. destruct op as [s w u0 c|u0|u0|u0| | | |s w|]; simpl.
  - unfold handleUnreadsChanged. destruct (bool_decide (0 < c)%nat).
    + unfold createBubble, _updateBubble.
      destruct (bool_decide (is_Some (get u0 (bubbles m)))) eqn:Hhas.
      { destruct (get u0 (bubbles m)) as [b|]; [destruct (destroyed b)|]; done. }
      destruct (bool_decide (MAX_BUBBLES ≤ length (bubbles m))%nat); [done|].
      simpl. rewrite fmap_app. apply NoDup_app. split_and!; [done| |apply NoDup_singleton].
      intros u Hin ->%list_elem_of_singleton.
      apply bool_decide_eq_false in Hhas. apply Hhas. by apply get_is_Some.
    + by apply NoDup_delete.
  - by apply NoDup_delete.
  - by apply NoDup_delete.
  - pose proof (destroyedOutside_keys u0 m) as Hk. unfold contacts in Hk. simpl in Hk.
    by rewrite Hk.
  - done.
  - done.
  - unfold toggleVisibility. by destruct (visible m).
  - unfold repositionAll.
    pose proof (reposition_keys (edgeX s w) 0 (bubbles m)) as Hk.
    destruct (reposition (edgeX s w) 0 (bubbles m)). simpl in *. by rewrite Hk.
  - apply NoDup_nil_2.
Qed.

Lemma run_unique ops m : NoDup (contacts m) → NoDup (contacts (run ops m).1).
Proof.
  revert m. induction ops as [|op ops IH]; intros m Hnd; [done|].
  destruct (pool_run_cons op ops m) as [-> _]. apply IH. by apply pool_step_unique.
Qed.

(** *** Slots without removals *)

Lemma compactFrom_app index (l1 l2 : list (string * BrowserWindow)) :
  compactFrom index (l1 ++ l2)
  = compactFrom index l1 && compactFrom (index + length l1) l2.
Proof.
  revert index. induction l1 as [|[u w] l1 IH]; intros index; simpl.
  - by rewrite Nat.add_0_r.
  - rewrite IH, <- andb_assoc. by replace (S index + length l1)%nat
      with (index + S (length l1))%nat by lia.
Qed.

Lemma compactFrom_ys index (l : list (string * BrowserWindow)) :
  compactFrom index l = true →
  (λ uw, y uw.2) <$> l = slotY <$> seq index (length l).
Proof.
  revert index. induction l as [|[u w] l IH]; intros index; simpl; [done|].
  intros [Hy Hl]%andb_true_iff. apply Z.eqb_eq in Hy. rewrite Hy. f_equal.
  by apply IH.
Qed.

Lemma slotY_inj : Inj (=) (=) slotY.
Proof. intros i j. unfold slotY, BUBBLE_SIZE, BUBBLE_GAP. lia. Qed.

Lemma live_all_alive m :
  Forall (λ uw, destroyed uw.2 = false) (bubbles m) → live m = bubbles m.
Proof.
  unfold live. induction (bubbles m) as [|[u w] l IH]; simpl; [done|].
  intros [Hw Hl]%Forall_cons. simpl in Hw. rewrite Hw. simpl. f_equal. by apply IH.
Qed.

Lemma reposition_alive xEdge index (l : list (string * BrowserWindow)) :
  Forall (λ uw, destroyed uw.2 = false) l →
  Forall (λ uw, destroyed uw.2 = false) (reposition xEdge index l).1
  ∧ compactFrom index (reposition xEdge index l).1 = true.
Proof.
  revert index. induction l as [|[u w] l IH]; intros index; simpl; [done|].
  intros [Hw Hl]%Forall_cons. simpl in Hw. rewrite Hw.
  destruct (IH (S index) Hl) as [Ha Hc].
  destruct (reposition xEdge (S index) l). simpl in *.
  rewrite Z.eqb_refl. split; [by apply Forall_cons|done].
Qed.

Lemma step_keeps_compact op m :
  keeps op = true →
  Forall (λ uw, destroyed uw.2 = false) (bubbles m) ∧ compactFrom 0 (bubbles m) = true →
  Forall (λ uw, destroyed uw.2 = false) (bubbles (step op m).1)
  ∧ compactFrom 0 (bubbles (step op m).1) = true.
Proof.
  intros Hop [Ha Hc]. destruct op as [s w u0 c|u0|u0|u0| | | |s w|]; try done; simpl.
  - simpl in Hop. unfold handleUnreadsChanged. rewrite Hop.
    unfold createBubble, _updateBubble.
    destruct (bool_decide (is_Some (get u0 (bubbles m)))).
    { destruct (get u0 (bubbles m)) as [b|]; [destruct (destroyed b)|]; done. }
    destruct (bool_decide (MAX_BUBBLES ≤ length (bubbles m))%nat); [done|].
    simpl. split.
    + apply Forall_app. split; [done|]. by apply Forall_singleton.
    + rewrite compactFrom_app, Hc. simpl. by rewrite Z.eqb_refl.
  - unfold toggleVisibility. by destruct (visible m).
  - unfold repositionAll.
    destruct (reposition_alive (edgeX s w) 0 (bubbles m) Ha) as [Ha' Hc'].
    by destruct (reposition (edgeX s w) 0 (bubbles m)).
Qed.

(** X18. As long as no window is removed (positive unread counts, show, hide
    and reposition only), the windows of the pool are alive and sit in the
    slots 0, 1, ... in order of creation, so no two of them share a
    position. *)
Theorem no_overlap_without_removal (ops : list Op) :
  forallb keeps ops = true →
  let m := (run ops init).1 in
  Forall (λ uw, destroyed uw.2 = false) (bubbles m)
  ∧ compact m = true
  ∧ (λ uw, y uw.2) <$> bubbles m = slotY <$> seq 0 (length (bubbles m))
  ∧ NoDup ((λ uw, y uw.2) <$> bubbles m).
Proof.
  intros Hops.
  assert (∀ m, Forall (λ uw, destroyed uw.2 = false) (bubbles m)
               ∧ compactFrom 0 (bubbles m) = true →
               Forall (λ uw, destroyed uw.2 = false) (bubbles (run ops m).1)
               ∧ compactFrom 0 (bubbles (run ops m).1) = true) as Hgen.
  { induction ops as [|op ops IH]; intros m Hm; [done|].
    simpl in Hops. apply andb_true_iff in Hops as [Hop Hops].
    destruct (pool_run_cons op ops m) as [-> _]. apply IH; [done|].
    by apply step_keeps_compact. }
  intros m. destruct (Hgen init) as [Ha Hc]; [done|]. fold m in Ha, Hc.
  pose proof (compactFrom_ys 0 (bubbles m) Hc) as Hys.
  split_and!; [done| |done|].
  - unfold compact. by rewrite live_all_alive.
  - rewrite Hys. apply (NoDup_fmap_2 slotY (Inj0 := slotY_inj)). apply NoDup_seq.
Qed.

Lemma no_overlap_without_removal_witness :
  NoDup ((λ uw, y uw.2) <$> bubbles Samples.full_pool).
Proof.
  apply (no_overlap_without_removal
           ((λ u, OpUnreadsChanged DEFAULT_SETTINGS 1440 u 1) <$> ["1"; "2"; "3"; "4"; "5"])).
  reflexivity.
Defined.

(** *** Repositioning *)

Lemma reposition_idem xEdge index (l : list (string * BrowserWindow)) :
  reposition xEdge index (reposition xEdge index l).1 = reposition xEdge index l.
Proof.
  revert index. induction l as [|[u w] l IH]; intros index; simpl; [done|].
  destruct (destroyed w) eqn:Hd.
  - specialize (IH index). destruct (reposition xEdge index l) as [r e]. simpl in *.
    by rewrite Hd, IH.
  - specialize (IH (S index)). destruct (reposition xEdge (S index) l) as [r e].
    simpl in *. by rewrite IH.
Qed.

Lemma reposition_x xEdge index (l : list (string * BrowserWindow)) u b :
  (u, b) ∈ (reposition xEdge index l).1 → destroyed b = false → x b = xEdge.
Proof.
  revert index. induction l as [|[u' w] l IH]; intros index; simpl;
    [by intros ?%elem_of_nil|].
  destruct (destroyed w) eqn:Hd.
  - specialize (IH index). destruct (reposition xEdge index l) as [r e]. simpl in *.
    intros [[= -> ->]|Hin]%elem_of_cons Hb; [congruence|by apply IH].
  - specialize (IH (S index)). destruct (reposition xEdge (S index) l) as [r e].
    simpl in *. intros [[= -> ->]|Hin]%elem_of_cons Hb; [done|by apply IH].
Qed.

(** X19. [repositionAll] keeps the contacts of the pool and their order, puts
    every live window on the configured edge and into the slots 0, 1, ...,
    and is idempotent: repeated with the same settings and screen it sets
    the same positions again and changes nothing. *)
Theorem repositionAll_spec (settings : AppSettings.t) (screenW : Z) (m : BubbleManager) :
  let r := repositionAll settings screenW m in
  contacts r.1 = contacts m
  ∧ visible r.1 = visible m
  ∧ (∀ u b, (u, b) ∈ live r.1 → x b = edgeX settings screenW)
  ∧ compact r.1 = true
  ∧ repositionAll settings screenW r.1 = r.
Proof.
  intros r. unfold r, repositionAll, contacts, compact, live.
  pose proof (reposition_keys (edgeX settings screenW) 0 (bubbles m)) as Hk.
  pose proof (reposition_idem (edgeX settings screenW) 0 (bubbles m)) as Hi.
  pose proof (BubblesFacts.reposition_compact (edgeX settings screenW) 0 (bubbles m)) as Hc.
  pose proof (reposition_x (edgeX settings screenW) 0 (bubbles m)) as Hx.
  destruct (reposition (edgeX settings screenW) 0 (bubbles m)) as [l e]. simpl in *.
  split_and!; try done.
  - intros u b Hin. apply list_elem_of_In, filter_In in Hin as [Hin Hb].
    apply list_elem_of_In in Hin. apply negb_true_iff in Hb. by eapply Hx.
  - by rewrite Hi.
Qed.

(** *** The avatar cache *)




Lemma repositionAll_spec_witness :
  x (mkWindow 1356 100 false) = edgeX DEFAULT_SETTINGS 1440.
Proof.
  apply (proj1 (proj2 (proj2 (repositionAll_spec DEFAULT_SETTINGS 1440 Samples.after_removal)))
           "B" (mkWindow 1356 100 false)).
  vm_compute. left.
Defined.

End BubblesExtFacts.

(** ** Properties of the wiring *)

Module MainFacts.

Import Main.

(** *** The tray icon *)

(** X21. The tray shows the unread icon exactly when the client is connected
    and some contact has a ledger row; when disconnected it shows the plain
    icon and says so, whatever is unread. *)
Theorem tray_icon (loaded : gmap string Z) (ops : list Tracker.Op) (connected : bool) :
  let t := (Tracker.run ops (Tracker.init loaded)).1 in
  let r := updateTrayIcon (TrackerExt.getTotalUnreadCount t) connected in
  (r.1 = "tray-unread.png" ↔ connected = true ∧ Tracker.unreads t ≠ ∅)
  ∧ (r.1 ≠ "tray-unread.png" → r.1 = "tray-icon.png")
  ∧ (connected = false → r = ("tray-icon.png", "Oceangram — Disconnected")).
Proof.
  intros t r. unfold r, updateTrayIcon.
  pose proof (TrackerExtFacts.total_zero t (TrackerFacts.run_ledger_ok ops loaded)) as Hz.
  destruct connected; simpl.
  - destruct (decide (0 < TrackerExt.getTotalUnreadCount t)%nat) as [Hpos|Hzero].
    + rewrite bool_decide_eq_true_2 by done. simpl. split_and!; [|done|done].
      split; [|done]. intros _. split; [done|]. intros Hemp. apply Hz in Hemp. lia.
    + rewrite bool_decide_eq_false_2 by done. simpl. split_and!; [|done|done].
      split; [done|]. intros [_ Hne]. exfalso. apply Hne, Hz. lia.
  - split_and!; [|done|done]. split; [done|]. by intros [? _].
Qed.

(** *** Delivering the tracker's notifications to the pool *)

Lemma deliver_cons s w e events p :
  (Bubbles.forEach (onTrackerEvent s w) (e :: events) p).1
  = (Bubbles.forEach (onTrackerEvent s w) events (onTrackerEvent s w e p).1).1.
Proof.
  simpl. unfold Bubbles.andThen. destruct (onTrackerEvent s w e p) as [p1 e1]. simpl.
  by destruct (Bubbles.forEach (onTrackerEvent s w) events p1).
Qed.

Lemma onTrackerEvent_contacts s w e p u :
  u ∈ BubblesExt.contacts (onTrackerEvent s w e p).1 →
  u ∈ BubblesExt.contacts p
  ∨ ∃ c, e = Tracker.EmitUserUnreadsChanged u c ∧ (0 < c)%nat.
Proof.
  destruct e as [u0 d m|u0 c|u0|content|i]; simpl; try by left.
  intros Hin.
  apply (BubblesExtFacts.step_contacts (Bubbles.OpUnreadsChanged s w u0 c)) in Hin
    as [?|(s' & w' & c' & [= _ _ -> ->] & Hc)]; [by left|right]. by exists c'.
Qed.

Lemma onTrackerEvent_unique s w e p :
  NoDup (BubblesExt.contacts p) → NoDup (BubblesExt.contacts (onTrackerEvent s w e p).1).
Proof.
  destruct e as [u0 d m|u0 c|u0|content|i]; simpl; try done.
  apply (BubblesExtFacts.pool_step_unique (Bubbles.OpUnreadsChanged s w u0 c)).
Qed.

Lemma deliver_contacts (R : string → Prop) s w events p :
  (∀ u c, Tracker.EmitUserUnreadsChanged u c ∈ events → (0 < c)%nat → R u) →
  (∀ u, u ∈ BubblesExt.contacts p → R u) →
  ∀ u, u ∈ BubblesExt.contacts (Bubbles.forEach (onTrackerEvent s w) events p).1 → R u.
Proof.
  revert p. induction events as [|e events IH]; intros p Hev Hp u; [apply Hp|].
  rewrite deliver_cons. apply IH.
  - intros u' c Hin. apply Hev. by right.
  - intros u' [?|(c & -> & Hc)]%onTrackerEvent_contacts; [by apply Hp|].
    eapply Hev; [left|done].
Qed.

Lemma deliver_unique s w events p :
  NoDup (BubblesExt.contacts p) →
  NoDup (BubblesExt.contacts (Bubbles.forEach (onTrackerEvent s w) events p).1).
Proof.
  revert p. induction events as [|e events IH]; intros p Hp; [done|].
  rewrite deliver_cons. apply IH. by apply onTrackerEvent_unique.
Qed.

(** *** What the tracker's operations notify *)

Lemma addUnread_changed_row userId dialogId msg t u c :
  Tracker.EmitUserUnreadsChanged u c ∈ (Tracker._addUnread userId dialogId msg t).2 →
  is_Some (Tracker.unreads (Tracker._addUnread userId dialogId msg t).1 !! u).
Proof.
  intros [[=]|[= -> _]]%TrackerExtFacts.addUnread_effects.
  pose proof (TrackerFacts.addUnread_inLedger userId dialogId msg t) as Hin.
  unfold Tracker.inLedger in Hin.
  destruct (Tracker.unreads (Tracker._addUnread userId dialogId msg t).1 !! userId);
    [by eexists|done].
Qed.

Lemma addUnread_keeps_row userId dialogId msg t u :
  is_Some (Tracker.unreads t !! u) →
  is_Some (Tracker.unreads (Tracker._addUnread userId dialogId msg t).1 !! u).
Proof.
  intros [e He].
  destruct (TrackerExtFacts.addUnread_prefix userId dialogId msg t u e He) as (e' & -> & _).
  by eexists.
Qed.

Lemma forEach_addUnread_changed_row userId dialogId (l : list TelegramMessage.t) t u c :
  Tracker.EmitUserUnreadsChanged u c
    ∈ (Tracker.forEach (Tracker._addUnread userId dialogId) l t).2 →
  is_Some (Tracker.unreads (Tracker.forEach (Tracker._addUnread userId dialogId) l t).1 !! u).
Proof.
  revert t. induction l as [|x l IH]; intros t; simpl; [by intros ?%elem_of_nil|].
  unfold Tracker.andThen.
  pose proof (addUnread_changed_row userId dialogId x t u c) as H1.
  destruct (Tracker._addUnread userId dialogId x t) as [t1 e1].
  specialize (IH t1).
  pose proof (TrackerFacts.forEach_invariant
                (λ t', is_Some (Tracker.unreads t' !! u))
                (Tracker._addUnread userId dialogId) l
                (λ y t', addUnread_keeps_row userId dialogId y t' u) t1) as Hkeep.
  destruct (Tracker.forEach (Tracker._addUnread userId dialogId) l t1) as [t2 e2].
  simpl in *. intros [Hin|Hin]%elem_of_app; [by apply Hkeep, H1|by apply IH].
Qed.

(** For an operation other than [markRead]: the rows stay, and every
    unread-changed notification is about a row present afterwards. *)
Lemma step_rows op t :
  (∀ u0, op ≠ Tracker.OpMarkRead u0) →
  (∀ u, is_Some (Tracker.unreads t !! u) →
        is_Some (Tracker.unreads (Tracker.step op t).1 !! u))
  ∧ (∀ u c, Tracker.EmitUserUnreadsChanged u c ∈ (Tracker.step op t).2 →
            is_Some (Tracker.unreads (Tracker.step op t).1 !! u)).
Proof.
  intros Hop. destruct op as [wl ev|wl d fetched|u0|]; simpl.
  - unfold Tracker._handleNewMessage.
    destruct (_ || _); [split; [done|by intros u c ?%elem_of_nil]|].
    split; [intros u; apply addUnread_keeps_row|intros u c; apply addUnread_changed_row].
  - unfold Tracker._poll_dialog.
    destruct (negb _); [split; [done|by intros u c ?%elem_of_nil]|].
    destruct fetched as [[|m l]|]; try (split; [done|by intros u c ?%elem_of_nil]).
    split.
    + intros u Hu.
      apply (TrackerFacts.forEach_invariant (λ t', is_Some (Tracker.unreads t' !! u)));
        [|done].
      intros y t'. apply addUnread_keeps_row.
    + intros u c. apply forEach_addUnread_changed_row.
  - by destruct (Hop u0).
  - split; [done|]. intros u c ?%list_elem_of_singleton. done.
Qed.

(** *** The pool follows the ledger *)

(** The pair's invariant: one window per contact, a well-formed ledger,
    and a window only for a contact with a row. *)
Lemma trackerStep_inv s w op a :
  NoDup (BubblesExt.contacts (pool a)) →
  Tracker.ledger_ok (tracker a) →
  (∀ u, u ∈ BubblesExt.contacts (pool a) → is_Some (Tracker.unreads (tracker a) !! u)) →
  let a' := (trackerStep s w op a).1 in
  NoDup (BubblesExt.contacts (pool a'))
  ∧ Tracker.ledger_ok (tracker a')
  ∧ (∀ u, u ∈ BubblesExt.contacts (pool a') → is_Some (Tracker.unreads (tracker a') !! u)).
Proof.
  intros Hnd Hok Hsub. unfold trackerStep.
  pose proof (TrackerFacts.step_ledger_ok op (tracker a) Hok) as Hok'.
  assert ((∀ u0, op ≠ Tracker.OpMarkRead u0) ∨ ∃ u0, op = Tracker.OpMarkRead u0)
    as [Hop|[u0 ->]].
  { destruct op; try (left; by intros ?); right; by eexists. }
  - destruct (step_rows op (tracker a) Hop) as [Hkeep Hev].
    destruct (Tracker.step op (tracker a)) as [t' events]. simpl in *.
    pose proof (deliver_unique s w events (pool a) Hnd) as Hnd'.
    pose proof (deliver_contacts (λ u, is_Some (Tracker.unreads t' !! u)) s w events (pool a))
      as Hdel.
    destruct (Bubbles.forEach (onTrackerEvent s w) events (pool a)) as [p' effects].
    simpl in *. split_and!; [done|done|].
    apply Hdel; [intros u c Hin _; by eapply Hev|]. intros u Hu. by apply Hkeep, Hsub.
  - simpl in *. unfold Tracker.markRead in *.
    destruct (Tracker.unreads (tracker a) !! u0) as [e0|] eqn:He0.
    + destruct (last (UnreadEntry.messages e0)); simpl in *;
        unfold BubblesExt.contacts in *; simpl;
        (split_and!; [by apply BubblesExtFacts.NoDup_delete|done|]);
        intros u Hu;
        (destruct (decide (u = u0)) as [->|Hne];
         [apply BubblesExtFacts.get_is_Some in Hu;
          rewrite BubblesExtFacts.get_delete_eq in Hu by done; by destruct Hu
         |rewrite lookup_delete_ne by done;
          apply Hsub; by eapply BubblesExtFacts.keys_delete]).
    + simpl. done.
Qed.

Lemma step_inv op a :
  wired op = true →
  NoDup (BubblesExt.contacts (pool a)) →
  Tracker.ledger_ok (tracker a) →
  (∀ u, u ∈ BubblesExt.contacts (pool a) → is_Some (Tracker.unreads (tracker a) !! u)) →
  let a' := (step op a).1 in
  NoDup (BubblesExt.contacts (pool a'))
  ∧ Tracker.ledger_ok (tracker a')
  ∧ (∀ u, u ∈ BubblesExt.contacts (pool a') → is_Some (Tracker.unreads (tracker a') !! u)).
Proof.
  intros Hw Hnd Hok Hsub. destruct op as [s w top|s w u0|bop]; simpl.
  - by apply trackerStep_inv.
  - unfold openChatPopup.
    destruct (trackerStep_inv s w (Tracker.OpMarkRead u0) a Hnd Hok Hsub)
      as (Hnd1 & Hok1 & Hsub1).
    destruct (trackerStep s w (Tracker.OpMarkRead u0) a) as [a1 e1]. simpl in *.
    split_and!; [by apply BubblesExtFacts.NoDup_delete|done|].
    intros u Hu. apply Hsub1. by eapply BubblesExtFacts.keys_delete.
  - pose proof (BubblesExtFacts.pool_step_unique bop (pool a) Hnd) as Hnd'.
    pose proof (BubblesExtFacts.step_contacts bop (pool a)) as Hc.
    destruct (Bubbles.step bop (pool a)) as [p' e]. simpl in *.
    split_and!; [done|done|].
    intros u [Hu|(s & w & c & -> & _)]%Hc; [by apply Hsub|done].
Qed.

Lemma app_run_cons op ops a :
  (run (op :: ops) a).1 = (run ops (step op a).1).1.
Proof.
  simpl. destruct (step op a) as [a1 e1]. simpl. by destruct (run ops a1).
Qed.

Lemma run_inv ops loaded :
  forallb wired ops = true →
  let a := (run ops (init loaded)).1 in
  NoDup (BubblesExt.contacts (pool a))
  ∧ Tracker.ledger_ok (tracker a)
  ∧ (∀ u, u ∈ BubblesExt.contacts (pool a) → is_Some (Tracker.unreads (tracker a) !! u)).
Proof.
  intros Hops.
  assert (∀ a,
            NoDup (BubblesExt.contacts (pool a)) →
            Tracker.ledger_ok (tracker a) →
            (∀ u, u ∈ BubblesExt.contacts (pool a) →
                  is_Some (Tracker.unreads (tracker a) !! u)) →
            NoDup (BubblesExt.contacts (pool (run ops a).1))
            ∧ Tracker.ledger_ok (tracker (run ops a).1)
            ∧ (∀ u, u ∈ BubblesExt.contacts (pool (run ops a).1) →
                    is_Some (Tracker.unreads (tracker (run ops a).1) !! u))) as Hgen.
  { induction ops as [|op ops IH]; intros a Hnd Hok Hsub; [done|].
    simpl in Hops. apply andb_true_iff in Hops as [Hop Hops].
    rewrite app_run_cons.
    destruct (step_inv op a Hop Hnd Hok Hsub) as (Hnd1 & Hok1 & Hsub1).
    by apply IH. }
  apply Hgen.
  - apply NoDup_nil_2.
  - apply TrackerFacts.init_ledger_ok.
  - by intros u ?%elem_of_nil.
Qed.

(** X22. In the wired program a bubble exists only for a contact with unread
    messages: after any sequence of tracker operations (their notifications
    delivered to the pool), popup openings and pool operations, every
    contact with a window has a ledger row, with a count of at least 1. *)
Theorem bubbles_follow_ledger (loaded : gmap string Z) (ops : list Op) (userId : string) :
  forallb wired ops = true →
  let a := (run ops (init loaded)).1 in
  is_Some (Bubbles.get userId (Bubbles.bubbles (pool a))) →
  is_Some (Tracker.unreads (tracker a) !! userId)
  ∧ (1 ≤ UnreadEntry.count (Tracker.getUnreads userId (tracker a)).1)%nat.
Proof.
  intros Hops a Hwin.
  destruct (run_inv ops loaded Hops) as (_ & Hok & Hsub). fold a in Hok, Hsub.
  apply BubblesExtFacts.get_is_Some in Hwin.
  destruct (Hsub userId Hwin) as [e He]. split; [by eexists|].
  unfold Tracker.getUnreads. rewrite He. simpl.
  destruct (Hok userId e He) as (Hc & _ & Hne & _). rewrite Hc.
  destruct (UnreadEntry.messages e); [done|simpl; lia].
Qed.

Lemma bubbles_follow_ledger_witness :
  is_Some (Tracker.unreads
             (tracker (run [OpTracker DEFAULT_SETTINGS 1440
                              (Tracker.OpPush Samples.wl42 (Samples.push 7))]
                         (init ∅)).1) !! "42").
Proof.
  apply (bubbles_follow_ledger ∅
           [OpTracker DEFAULT_SETTINGS 1440 (Tracker.OpPush Samples.wl42 (Samples.push 7))]
           "42"); [reflexivity|]. by eexists.
Defined.

(** X23. Opening the chat popup of a contact that has none open, in the wired
    program, leaves the
    contact with no ledger row and no bubble, and the rows and windows of
    all other contacts as they were. *)
Theorem openChatPopup_clears (loaded : gmap string Z) (ops : list Op)
    (settings : AppSettings.t) (screenW : Z) (userId : string) :
  forallb wired ops = true →
  let a := (run ops (init loaded)).1 in
  let a' := (openChatPopup settings screenW userId a).1 in
  Tracker.unreads (tracker a') !! userId = None
  ∧ Bubbles.get userId (Bubbles.bubbles (pool a')) = None
  ∧ (∀ u, u ≠ userId →
       Tracker.unreads (tracker a') !! u = Tracker.unreads (tracker a) !! u
       ∧ Bubbles.get u (Bubbles.bubbles (pool a')) = Bubbles.get u (Bubbles.bubbles (pool a))).
Proof.
  intros Hops a a'.
  destruct (run_inv ops loaded Hops) as (Hnd & _ & _). fold a in Hnd.
  unfold a', openChatPopup, trackerStep. simpl. unfold Tracker.markRead.
  destruct (Tracker.unreads (tracker a) !! userId) as [e0|] eqn:He0.
  - destruct (last (UnreadEntry.messages e0)); simpl;
      (split_and!;
       [apply lookup_delete_eq
       |apply BubblesExtFacts.get_delete_eq; by apply BubblesExtFacts.NoDup_delete
       |intros u Hne; split;
        [by apply lookup_delete_ne
        |by rewrite !BubblesExtFacts.get_delete_ne]]).
  - simpl. split_and!; [done|by apply BubblesExtFacts.get_delete_eq|].
    intros u Hne. split; [done|by apply BubblesExtFacts.get_delete_ne].
Qed.

Lemma openChatPopup_clears_witness :
  Bubbles.get "42"
    (Bubbles.bubbles
       (pool (openChatPopup DEFAULT_SETTINGS 1440 "42"
                (run [OpTracker DEFAULT_SETTINGS 1440
                        (Tracker.OpPush Samples.wl42 (Samples.push 7))]
                   (init ∅)).1).1)) = None.
Proof.
  apply (openChatPopup_clears ∅
           [OpTracker DEFAULT_SETTINGS 1440 (Tracker.OpPush Samples.wl42 (Samples.push 7))]
           DEFAULT_SETTINGS 1440 "42"). reflexivity.
Defined.

Lemma tray_icon_witness :
  updateTrayIcon (TrackerExt.getTotalUnreadCount Samples.t7) false
  = ("tray-icon.png", "Oceangram — Disconnected").
Proof.
  apply (proj2 (proj2 (tray_icon ∅ [Tracker.OpPush Samples.wl42 (Samples.push 7)] false))).
  reflexivity.
Defined.

End MainFacts.
